(** * pr3c0g_synapse: the two incremental ingestion loops

    A shallow embedding of
      - [app/moex_market/monitor.py]  ([MarketMonitor]) together with the two
        insert paths of [app/moex_market/database.py] ([ClickHouseDatabase]);
      - [app/news_feeder/parser.py]   ([extract_tags]);
      - [app/news_feeder/database.py] ([Database.save_news],
        [Database.update_poll_state]) and [app/news_feeder/main.py]
        ([NewsFeeder.poll_channel]).

    Python objects that are mutated in place (the monitor's [cache] and
    [index_cache], the tables of the two stores) are fields of an explicit
    state; exceptions are values of [result]; everything the outside world
    decides (the clock, the answers of the MOEX client, of Telegram and of the
    database drivers) is read from an environment record. *)

From Stdlib Require Import ZArith NArith String Ascii List Lia.
From stdpp Require Import gmap strings list fin_maps fin_sets.

Local Open Scope string_scope.
Local Open Scope list_scope.
Local Open Scope Z_scope.

(** ** Exceptions and the state-and-exception monad *)

Module Py.

(** The exception classes that occur in the modelled code.  All of them are
    subclasses of [Exception]; [OtherError] stands for any further subclass
    (driver, network and protocol errors), named by its class. *)
Inductive exn : Type :=
| ValueError
| TypeError
| OverflowError
| RuntimeError
| IntegrityError
| ChannelPrivateError
| FloodWaitError (seconds : Z)
| OtherError (cls : string).

Inductive result (A : Type) : Type :=
| Ok (a : A)
| Raise (e : exn).
Arguments Ok {A} a.
Arguments Raise {A} e.

Definition is_ok {A} (r : result A) : bool :=
  match r with Ok _ => true | Raise _ => false end.

(** A computation over a mutable state [S] that returns or raises.  The state
    reached when an exception is raised is kept: Python does not undo the
    mutations made before a [raise]. *)
Definition M (S A : Type) : Type := S → result A * S.

#[global] Instance M_ret {S} : MRet (M S) := λ A a s, (Ok a, s).
#[global] Instance M_bind {S} : MBind (M S) := λ A B f m s,
  match m s with
  | (Ok a, s') => f a s'
  | (Raise e, s') => (Raise e, s')
  end.

Definition raise {S A} (e : exn) : M S A := λ s, (Raise e, s).
Definition get {S} : M S S := λ s, (Ok s, s).
Definition modify {S} (f : S → S) : M S unit := λ s, (Ok tt, f s).

(** [try: body  except <classes>: handler]; a handler that does not cover the
    class of [e] re-raises it. *)
Definition try_except {S A} (body : M S A) (handler : exn → M S A) : M S A :=
  λ s, match body s with
       | (Ok a, s') => (Ok a, s')
       | (Raise e, s') => handler e s'
       end.

(** An external call whose outcome the environment fixes. *)
Definition lift {S A} (r : result A) : M S A := λ s, (r, s).

End Py.
Export Py.

(** ** [datetime] *)

Module Datetime.

(** A [datetime] value: the wall-clock reading in microseconds since
    0001-01-01T00:00:00 ([datetime.min]) and, for an aware value, its UTC
    offset in microseconds ([tzinfo]); [dt_tz = None] is a naive value. *)
Record datetime : Type := { dt_us : Z; dt_tz : option Z }.

Definition naive (us : Z) : datetime := {| dt_us := us; dt_tz := None |}.

Definition us_per_hour : Z := 3600000000.
Definition us_per_day : Z := 86400000000.

(** [date.max.toordinal()] = 3652059 : the days of the years 1..9999. *)
Definition max_us : Z := 3652059 * us_per_day - 1.

(** [timedelta(hours=h)], in microseconds; the constructor raises
    [OverflowError] when the normalised day count leaves
    [-999999999, 999999999]. *)
Definition timedelta_hours (h : Z) : result Z :=
  let days := (h * us_per_hour) `div` us_per_day in
  if (Z.abs days <=? 999999999) then Ok (h * us_per_hour) else Raise OverflowError.

(** [now - delta] on a naive [now]; [OverflowError] outside
    [datetime.min, datetime.max]. *)
Definition sub_timedelta (now delta : Z) : result Z :=
  let t := now - delta in
  if (0 <=? t) && (t <=? max_us) then Ok t else Raise OverflowError.

(** [a >= b] where [b] is naive: comparing an aware with a naive value raises
    [TypeError]. *)
Definition ge_naive (a : datetime) (b : Z) : result bool :=
  match dt_tz a with
  | None => Ok (b <=? dt_us a)
  | Some _ => Raise TypeError
  end.

(** [d.date()], as the day number since 0001-01-01. *)
Definition date (d : datetime) : Z := dt_us d `div` us_per_day.

(** [d.replace(tzinfo=timezone.utc)] *)
Definition replace_tzinfo_utc (d : datetime) : datetime :=
  {| dt_us := dt_us d; dt_tz := Some 0 |}.

(** [s.replace(" ", "T")] *)
Fixpoint replace_space_T (s : string) : string :=
  match s with
  | EmptyString => EmptyString
  | String c r =>
      String (if decide (c = " "%char) then "T"%char else c) (replace_space_T r)
  end.

End Datetime.
Export Datetime.

(** ** The market monitor: data *)

(** A JSON number as it is received (decimal mantissa and exponent); the
    monitor only passes these through. *)
Record number : Type := { mantissa : Z; exponent : Z }.

(** One element of the list [get_ticker_data] returns: a dict with the ISS
    candle columns.  [None] is an absent key or a null. *)
Record candle : Type := {
  c_begin : option string;
  c_end : option string;
  c_open : option number;
  c_close : option number;
  c_high : option number;
  c_low : option number;
  c_value : option number;
  c_volume : option Z
}.

(** [candle.get("begin", "")] *)
Definition get_begin (c : candle) : string := default "" (c_begin c).

(** The dict [get_moex_index] returns: the row of the [marketdata] table whose
    [SECID] is the index name. *)
Record index_data : Type := {
  SECID : option string;
  SYSTIME : option string;
  TRADEDATE : option string;
  columns : list (string * option number)
}.

(** A row of [ticker_candles] as [insert_ticker_candles_batch] builds it. *)
Record candle_row : Type := {
  r_ticker : string;
  r_begin : datetime;
  r_end : option datetime;
  r_candle : candle;
  r_trade_date : Z
}.

(** A row of [index_values]. *)
Record index_row : Type := {
  i_secid : option string;
  i_systime : option datetime;
  i_source : index_data
}.

(** [MarketMonitor.cache] and [MarketMonitor.index_cache]. *)
Record seen : Type := {
  cache : gmap string (gset string);
  index_cache : gset string
}.

(** A call of the persistence layer, recorded with the membership sets as
    they are at the moment of the call. *)
Inductive db_call : Type :=
| InsertCandles (ticker : string) (candles : list candle) (at_call : seen)
| InsertIndex (idx : index_data) (at_call : seen).

(** The monitor with its [ClickHouseDatabase]: [connected] is
    [self.db.client is not None]; the two tables; the log of calls. *)
Record world : Type := {
  mon : seen;
  connected : bool;
  ticker_candles : list candle_row;
  index_values : list index_row;
  calls : list db_call
}.

Definition set_cache (f : gmap string (gset string) → gmap string (gset string))
    (w : world) : world :=
  {| mon := {| cache := f (cache (mon w)); index_cache := index_cache (mon w) |};
     connected := connected w; ticker_candles := ticker_candles w;
     index_values := index_values w; calls := calls w |}.

Definition set_index_cache (f : gset string → gset string) (w : world) : world :=
  {| mon := {| cache := cache (mon w); index_cache := f (index_cache (mon w)) |};
     connected := connected w; ticker_candles := ticker_candles w;
     index_values := index_values w; calls := calls w |}.

Definition add_candle_rows (rows : list candle_row) (w : world) : world :=
  {| mon := mon w; connected := connected w;
     ticker_candles := ticker_candles w ++ rows;
     index_values := index_values w; calls := calls w |}.

Definition add_index_row (row : index_row) (w : world) : world :=
  {| mon := mon w; connected := connected w;
     ticker_candles := ticker_candles w;
     index_values := index_values w ++ [row]; calls := calls w |}.

Definition record_call (c : db_call) (w : world) : world :=
  {| mon := mon w; connected := connected w;
     ticker_candles := ticker_candles w;
     index_values := index_values w; calls := calls w ++ [c] |}.

(** A [client.execute] that raises: the exception, and what the store had
    accepted of the rows sent when it was raised, row [i] of them when
    [accepted i]; the store gives no promise that a failing insert leaves
    nothing behind. *)
Record failure : Type := {
  raised : exn;
  accepted : nat → bool
}.

(** The rows of a failing insert that stay in the table. *)
Fixpoint accepted_from {A} (keep : nat → bool) (i : nat) (rows : list A) : list A :=
  match rows with
  | [] => []
  | r :: rest =>
      if keep i then r :: accepted_from keep (S i) rest
      else accepted_from keep (S i) rest
  end.

Definition accepted_rows {A} (f : failure) (rows : list A) : list A :=
  accepted_from (accepted f) 0%nat rows.

(** What the outside world answers during one [monitor_cycle]; for
    [client.execute], [None] is a call that stores its rows and returns. *)
Record cycle_env : Type := {
  env_now : Z;                                 (* datetime.now(), naive *)
  env_candles : string → result (list candle); (* moex_client.get_ticker_data *)
  env_exec_candles : string → option failure;  (* client.execute, candles *)
  env_index : result (option index_data);      (* moex_client.get_moex_index *)
  env_exec_index : option failure              (* client.execute, index *)
}.

(** The seen-set of a ticker ([∅] when the ticker has no entry). *)
Definition seen_of (ticker : string) (s : seen) : gset string :=
  default ∅ (cache s !! ticker).

(** ** The market monitor: operations *)

Module Monitor.

#[global] Instance result_ret : MRet result := λ A a, Ok a.
#[global] Instance result_bind : MBind result := λ A B f r,
  match r with Ok a => f a | Raise e => Raise e end.

(** [MarketMonitor.get_tickers_list] *)
Definition get_tickers_list : list string := ["SBER"].

(** *** [filter_new_candles] *)

(** The body of the [for] loop of [filter_new_candles]; [self.cache[ticker]]
    is the total lookup, the entry having been created before the loop. *)
Fixpoint filter_loop (ticker : string) (candles new_candles : list candle)
    (cache : gmap string (gset string)) : list candle * gmap string (gset string) :=
  match candles with
  | [] => (new_candles, cache)
  | candle :: rest =>
      let begin_str := get_begin candle in
      if decide (begin_str = "") then filter_loop ticker rest new_candles cache
      else if decide (begin_str ∈ cache !!! ticker) then
        filter_loop ticker rest new_candles cache
      else
        filter_loop ticker rest (new_candles ++ [candle])
          (<[ticker := cache !!! ticker ∪ {[begin_str]}]> cache)
  end.

(** [if ticker not in self.cache: self.cache[ticker] = set()] *)
Definition ensure_ticker (ticker : string) (cache : gmap string (gset string))
    : gmap string (gset string) :=
  match cache !! ticker with
  | None => <[ticker := ∅]> cache
  | Some _ => cache
  end.

(** [MarketMonitor.filter_new_candles], on [self.cache]. *)
Definition filter_new_candles (ticker : string) (candles : list candle)
    (cache : gmap string (gset string)) : list candle * gmap string (gset string) :=
  filter_loop ticker candles [] (ensure_ticker ticker cache).

(** The same as a method of the monitor. *)
Definition filter_new_candlesM (ticker : string) (candles : list candle)
    : M world (list candle) :=
  λ w, let '(new_candles, cache') := filter_new_candles ticker candles (cache (mon w)) in
       (Ok new_candles, set_cache (λ _, cache') w).

(** *** The rollback of [save_ticker_data] *)

(** One iteration of the loop of the [except] branch:
    [if begin_str in self.cache.get(ticker, set()):
         self.cache[ticker].discard(begin_str)]. *)
Definition discard_begin (ticker : string) (cache : gmap string (gset string))
    (candle : candle) : gmap string (gset string) :=
  let begin_str := get_begin candle in
  if decide (begin_str ∈ default ∅ (cache !! ticker)) then
    <[ticker := cache !!! ticker ∖ {[begin_str]}]> cache
  else cache.

Definition rollback (ticker : string) (new_data : list candle)
    (cache : gmap string (gset string)) : gmap string (gset string) :=
  foldl (discard_begin ticker) cache new_data.

Section WithParser.

(** [datetime.fromisoformat], a function of the Python library: [None] is
    [ValueError], the only exception it raises on a [str]. *)
Variable fromisoformat : string → option datetime.

(** [self.filter_hours] *)
Variable filter_hours : Z.

(** *** [fetch_ticker_data] *)

(** The loop over [data]: a candle without [begin] is skipped, one whose
    [begin] does not parse is skipped ([ValueError] is caught inside the
    loop), and the comparison with the naive threshold raises [TypeError]
    for an aware [begin], which the handler inside the loop does not catch. *)
Fixpoint window_loop (time_threshold : Z) (data filtered_data : list candle)
    : result (list candle) :=
  match data with
  | [] => Ok filtered_data
  | candle :: rest =>
      let begin_str := get_begin candle in
      if decide (begin_str = "") then window_loop time_threshold rest filtered_data
      else
        match fromisoformat (replace_space_T begin_str) with
        | None => window_loop time_threshold rest filtered_data
        | Some begin_dt =>
            inside ← ge_naive begin_dt time_threshold;
            if (inside : bool) then
              window_loop time_threshold rest (filtered_data ++ [candle])
            else window_loop time_threshold rest filtered_data
        end
  end.

(** The body of the outer [try] of [fetch_ticker_data]. *)
Definition fetch_body (env : cycle_env) (ticker : string) : result (list candle) :=
  data ← env_candles env ticker;
  match data with
  | [] => Ok []
  | _ =>
      delta ← timedelta_hours filter_hours;
      time_threshold ← sub_timedelta (env_now env) delta;
      window_loop time_threshold data []
  end.

(** [MarketMonitor.fetch_ticker_data]: [except Exception: return []]. *)
Definition fetch_ticker_data (env : cycle_env) (ticker : string) : list candle :=
  match fetch_body env ticker with
  | Ok filtered_data => filtered_data
  | Raise _ => []
  end.

(** *** [ClickHouseDatabase.insert_ticker_candles_batch] *)

(** The loop that builds [values_list].  A [begin] that does not parse is
    skipped; the parse of [end] is outside the [try], so its [ValueError]
    leaves the function. *)
Fixpoint build_values (ticker : string) (candles : list candle)
    (values_list : list candle_row) : result (list candle_row) :=
  match candles with
  | [] => Ok values_list
  | data :: rest =>
      match c_begin data with
      | None => build_values ticker rest values_list
      | Some begin_str =>
          if decide (begin_str = "") then build_values ticker rest values_list
          else
            match fromisoformat (replace_space_T begin_str) with
            | None => build_values ticker rest values_list
            | Some begin_dt =>
                end_dt ← match c_end data with
                         | None => Ok None
                         | Some end_str =>
                             if decide (end_str = "") then Ok None
                             else match fromisoformat (replace_space_T end_str) with
                                  | None => Raise ValueError
                                  | Some d => Ok (Some d)
                                  end
                         end;
                build_values ticker rest
                  (values_list ++ [{| r_ticker := ticker; r_begin := begin_dt;
                                      r_end := end_dt; r_candle := data;
                                      r_trade_date := date begin_dt |}])
            end
      end
  end.

(** [exec] is what [self.client.execute] does on this call: [None] stores the
    rows and returns; [Some f] raises, with the rows the store had accepted by
    then left in the table, and the handler around the call raises again. *)
Definition insert_ticker_candles_batch (exec : option failure) (ticker : string)
    (candles : list candle) : M world unit :=
  w ← get;
  modify (record_call (InsertCandles ticker candles (mon w)));;
  if negb (connected w) then raise RuntimeError
  else match candles with
       | [] => mret tt
       | _ =>
           values_list ← lift (build_values ticker candles []);
           match values_list with
           | [] => mret tt
           | _ => match exec with
                  | None => modify (add_candle_rows values_list)
                  | Some f =>
                      modify (add_candle_rows (accepted_rows f values_list));;
                      raise (raised f)
                  end
           end
       end.

(** *** [save_ticker_data] *)

(** [if new_data is None: new_data = self.filter_new_candles(ticker, data)] *)
Definition resolve_new_data (ticker : string) (data : list candle)
    (new_data : option (list candle)) : M world (list candle) :=
  match new_data with
  | None => filter_new_candlesM ticker data
  | Some new_data => mret new_data
  end.

Definition save_ticker_data (env : cycle_env) (ticker : string) (data : list candle)
    (new_data : option (list candle)) : M world unit :=
  match data with
  | [] => mret tt
  | _ =>
      new_data ← resolve_new_data ticker data new_data;
      match new_data with
      | [] => mret tt
      | _ =>
          try_except
            (insert_ticker_candles_batch (env_exec_candles env ticker) ticker new_data)
            (λ _, modify (set_cache (rollback ticker new_data)))
      end
  end.

(** *** The index snapshot *)

(** [parse_datetime] of [insert_index_value]: a bare [except] returns [None]. *)
Definition parse_datetime (dt_str : option string) : option datetime :=
  match dt_str with
  | None => None
  | Some s => if decide (s = "") then None else fromisoformat (replace_space_T s)
  end.

Definition insert_index_value (exec : option failure) (idx : index_data) : M world unit :=
  w ← get;
  modify (record_call (InsertIndex idx (mon w)));;
  if negb (connected w) then raise RuntimeError
  else
    let values := {| i_secid := SECID idx;
                     i_systime := parse_datetime (SYSTIME idx);
                     i_source := idx |} in
    match exec with
    | None => modify (add_index_row values)
    | Some f =>
        (if accepted f 0%nat then modify (add_index_row values) else mret tt);;
        raise (raised f)
    end.

(** [MarketMonitor.fetch_index_data]: [None] stands for the empty dict that
    [index_data or {}] and the handler return. *)
Definition fetch_index_data (env : cycle_env) : option index_data :=
  match env_index env with
  | Ok idx => idx
  | Raise _ => None
  end.

Definition save_index_data (env : cycle_env) (idx : option index_data) : M world unit :=
  match idx with
  | None => mret tt
  | Some index_data =>
      let systime_str := default "" (SYSTIME index_data) in
      if decide (systime_str = "") then mret tt
      else
        w ← get;
        if decide (systime_str ∈ index_cache (mon w)) then mret tt
        else
          try_except
            (insert_index_value (env_exec_index env) index_data;;
             modify (set_index_cache (λ s, s ∪ {[systime_str]})))
            (λ _, w' ← get;
                  if decide (systime_str ∈ index_cache (mon w')) then
                    modify (set_index_cache (λ s, s ∖ {[systime_str]}))
                  else mret tt)
  end.

(** *** [monitor_cycle] *)

(** The body of the [for ticker in tickers] loop, with its [try]. *)
Definition process_ticker (env : cycle_env) (ticker : string) : M world unit :=
  try_except
    (let data := fetch_ticker_data env ticker in
     match data with
     | [] => mret tt
     | _ =>
         new_data ← filter_new_candlesM ticker data;
         save_ticker_data env ticker data (Some new_data)
     end)
    (λ _, mret tt).

Fixpoint for_each {A} (body : A → M world unit) (l : list A) : M world unit :=
  match l with
  | [] => mret tt
  | x :: rest => body x;; for_each body rest
  end.

Definition monitor_cycle (env : cycle_env) : M world unit :=
  for_each (process_ticker env) get_tickers_list;;
  try_except
    (save_index_data env (fetch_index_data env))
    (λ _, mret tt).

End WithParser.

End Monitor.

(** ** The news feeder: tag extraction *)

Module Parser.

Local Open Scope N_scope.

(** A Python [str] is a sequence of Unicode code points. *)
Definition str : Type := list N.

(** The code points of an ASCII literal. *)
Definition codes (s : string) : str := N_of_ascii <$> list_ascii_of_string s.

(** The class [\w] and [str.lower] on ASCII: [[a-zA-Z0-9_]], and [A-Z] to
    [a-z]. *)
Definition ascii_word (c : N) : bool :=
  ((48 <=? c) && (c <=? 57)) || ((65 <=? c) && (c <=? 90))
  || (c =? 95) || ((97 <=? c) && (c <=? 122)).

Definition ascii_lower (c : N) : N :=
  if (65 <=? c) && (c <=? 90) then c + 32 else c.

Section Unicode.

(** Beyond ASCII both consult the Unicode database of the interpreter:
    [uni_word c] tells whether [c] is alphanumeric, and [uni_lower s i] is
    the lower-case mapping of the code point at position [i] of [s] (one to
    three code points; it depends on the position for the final sigma). *)
Variable uni_word : N → bool.
Variable uni_lower : str → nat → list N.

Definition word_char (c : N) : bool :=
  if c <? 128 then ascii_word c else uni_word c.

(** [s.lower()] *)
Definition lower (s : str) : str :=
  concat (imap (λ i c, if c <? 128 then [ascii_lower c] else uni_lower s i) s).

(** A match that ends: the group is reported when it is not empty, [\w+]
    needing one character at least. *)
Definition emit (w : str) : list str :=
  match w with [] => [] | _ => [w] end.

(** [re.findall(r"#(\w+)", text)], as a scan from left to right: [cur] is
    [Some w] after a [#] that has been followed by the word characters [w] so
    far.  The matches are the leftmost ones, greedy and not overlapping. *)
Fixpoint scan (cur : option str) (text : str) : list str :=
  match text, cur with
  | [], None => []
  | [], Some w => emit w
  | c :: rest, None =>
      if c =? 35 then scan (Some []) rest else scan None rest
  | c :: rest, Some w =>
      if word_char c then scan (Some (w ++ [c])) rest
      else emit w ++ (if c =? 35 then scan (Some []) rest else scan None rest)
  end.

Definition findall (text : str) : list str := scan None text.

(** [extract_tags]: [list(set(tag.lower() for tag in tags))]; the order of
    the list is the iteration order of the set, which [elements] leaves
    unspecified as Python does. *)
Definition extract_tags (text : str) : list str :=
  match text with
  | [] => []
  | _ =>
      let tags := findall text in
      elements (list_to_set (lower <$> tags) : gset str)
  end.

(** A [#word] hashtag of [text], in the words of the specification: a [#]
    followed by the word characters [w], one at least, as far as they go. *)
Definition stops (post : str) : Prop :=
  match post with
  | [] => True
  | c :: _ => word_char c = false
  end.

Definition hashtag (text w : str) : Prop :=
  w ≠ [] ∧ Forall (λ c, word_char c = true) w
  ∧ ∃ pre post, text = pre ++ 35 :: w ++ post ∧ stops post.

(** What the scan still owes after a [#] and the word characters [u]. *)
Definition continues (u text w : str) : Prop :=
  ∃ v post, text = v ++ post ∧ Forall (λ c, word_char c = true) v
            ∧ stops post ∧ w = u ++ v ∧ w ≠ [].

End Unicode.

End Parser.

(** ** The news feeder: store and polling *)

Module Feeder.

Import Parser.

(** A row of the table [news]. *)
Record News : Type := {
  id : Z;
  msg_id : Z;
  channel : string;
  date : datetime;
  tags : list str;
  text : str
}.

(** The relational store: the rows of [news], the table [polling_state]
    (primary key [channel]) and the next value of the [id] sequence. *)
Record store : Type := {
  news : list News;
  polling_state : gmap string datetime;
  next_id : Z
}.

Definition empty_store : store :=
  {| news := []; polling_state := ∅; next_id := 1 |}.

Definition same_key (m : Z) (c : string) (n : News) : bool :=
  bool_decide (msg_id n = m ∧ channel n = c).

(** [select(exists().where(News.msg_id == msg_id, News.channel == channel))] *)
Definition exists_row (m : Z) (c : string) (s : store) : bool :=
  existsb (same_key m c) (news s).

(** The number of rows with the pair [(msg_id, channel)]. *)
Definition count_rows (m : Z) (c : string) (s : store) : nat :=
  length (List.filter (same_key m c) (news s)).

(** An [INSERT] into [news] under the constraint [uq_news_msg_channel]. *)
Definition insert_row (m : Z) (c : string) (d : datetime) (tg : list str) (tx : str)
    : M store unit :=
  λ s, if exists_row m c s then (Raise IntegrityError, s)
       else (Ok tt, {| news := news s ++ [{| id := next_id s; msg_id := m; channel := c;
                                             date := d; tags := tg; text := tx |}];
                       polling_state := polling_state s;
                       next_id := next_id s + 1 |}).

(** A row another writer commits while [save_news] is between its existence
    check and its own insert; under the same constraint. *)
Definition other_writer (n : News) : M store unit :=
  try_except (insert_row (msg_id n) (channel n) (date n) (tags n) (text n))
             (λ _, mret tt).

Fixpoint other_writers (l : list News) : M store unit :=
  match l with
  | [] => mret tt
  | n :: rest => other_writer n;; other_writers rest
  end.

(** What the outside world does during one [save_news]: the existence query
    may fail with [exists_fault]; [interleaved] are the rows other writers
    commit after the check; the commit may fail with [commit_fault]. *)
Record save_env : Type := {
  exists_fault : option exn;
  interleaved : list News;
  commit_fault : option exn
}.

Definition quiet : save_env :=
  {| exists_fault := None; interleaved := []; commit_fault := None |}.

(** The store answers the queries of a [save_news]: the existence query
    returns, and the commit succeeds or reports the violated constraint. *)
Definition answers (env : save_env) : Prop :=
  exists_fault env = None
  ∧ (commit_fault env = None ∨ commit_fault env = Some IntegrityError).

(** [Database.message_exists] *)
Definition message_exists (env : save_env) (m : Z) (c : string) : M store bool :=
  match exists_fault env with
  | Some e => raise e
  | None => s ← get; mret (exists_row m c s)
  end.

(** [date.replace(tzinfo=timezone.utc)] when [date.tzinfo is None]. *)
Definition with_utc (d : datetime) : datetime :=
  match dt_tz d with
  | None => replace_tzinfo_utc d
  | Some _ => d
  end.

(** [session.add(news); await session.commit()] *)
Definition commit_news (env : save_env) (m : Z) (c : string) (d : datetime)
    (tg : list str) (tx : str) : M store unit :=
  match commit_fault env with
  | Some e => raise e
  | None => insert_row m c d tg tx
  end.

(** [Database.save_news]: only [IntegrityError] is handled. *)
Definition save_news (env : save_env) (m : Z) (c : string) (d : datetime)
    (tg : list str) (tx : str) : M store bool :=
  found ← message_exists env m c;
  if (found : bool) then mret false
  else
    let d := with_utc d in
    other_writers (interleaved env);;
    try_except
      (commit_news env m c d tg tx;; mret true)
      (λ e, match e with
            | IntegrityError => mret false
            | _ => raise e
            end).

(** [Database.update_poll_state]: the row of the channel is updated when the
    [select] finds it and added otherwise; [fault] is a failure of the
    [select] or of the [commit]. *)
Definition update_poll_state (fault : option exn) (c : string)
    (last_poll_time : datetime) : M store unit :=
  let last_poll_time := with_utc last_poll_time in
  match fault with
  | Some e => raise e
  | None =>
      modify (λ s,
        {| news := news s;
           polling_state :=
             match polling_state s !! c with
             | Some _ => alter (λ _, last_poll_time) c (polling_state s)
             | None => <[c := last_poll_time]> (polling_state s)
             end;
           next_id := next_id s |})
  end.

(** A Telegram message: [text] is [None] or empty for a message without
    text. *)
Record message : Type := {
  m_id : Z;
  m_text : option str;
  m_date : datetime
}.

(** What the outside world answers during one [poll_channel]. *)
Record poll_env : Type := {
  env_get_entity : option exn;                (* client.get_entity *)
  env_get_messages : result (list message);   (* client.get_messages *)
  env_save : nat → save_env;                  (* the i-th message's save *)
  env_utcnow : datetime;                      (* datetime.now(timezone.utc) *)
  env_poll_fault : option exn                 (* update_poll_state *)
}.

Section WithUnicode.

Variable uni_word : N → bool.
Variable uni_lower : str → nat → list N.

(** The [for msg in messages] loop; [i] is the position of the message and
    the pair counts the saved and the skipped messages. *)
Fixpoint save_loop (env : poll_env) (channel_name : string) (messages : list message)
    (i : nat) (counts : Z * Z) : M store (Z * Z) :=
  match messages with
  | [] => mret counts
  | msg :: rest =>
      match m_text msg with
      | None => save_loop env channel_name rest (S i) counts
      | Some [] => save_loop env channel_name rest (S i) counts
      | Some txt =>
          let tags := extract_tags uni_word uni_lower txt in
          let msg_date := with_utc (m_date msg) in
          saved ← save_news (env_save env i) (m_id msg) channel_name msg_date tags txt;
          save_loop env channel_name rest (S i)
            (if (saved : bool) then (fst counts + 1, snd counts)
             else (fst counts, snd counts + 1))
      end
  end.

(** [NewsFeeder.poll_channel].  The inner [try] returns on [ValueError] and
    [ChannelPrivateError]; the outer one handles [FloodWaitError] (by sleeping)
    and every other [Exception] (by logging). *)
Definition poll_channel (env : poll_env) (channel_name : string) : M store unit :=
  try_except
    (resolved ← try_except
                  (match env_get_entity env with
                   | None => mret true
                   | Some e => raise e
                   end)
                  (λ e, match e with
                        | ValueError | ChannelPrivateError => mret false
                        | _ => raise e
                        end);
     if (resolved : bool) then
       messages ← lift (env_get_messages env);
       save_loop env channel_name messages 0%nat (0, 0);;
       update_poll_state (env_poll_fault env) channel_name (env_utcnow env)
     else mret tt)
    (λ e, match e with
          | FloodWaitError _ => mret tt
          | _ => mret tt
          end).

End WithUnicode.

(** The operations this process and the other writers run on the store
    between two calls. *)
Inductive op : Type :=
| OpSave (env : save_env) (m : Z) (c : string) (d : datetime) (tg : list str) (tx : str)
| OpPoll (fault : option exn) (c : string) (t : datetime).

Definition run_op (s : store) (o : op) : store :=
  match o with
  | OpSave env m c d tg tx => snd (save_news env m c d tg tx s)
  | OpPoll fault c t => snd (update_poll_state fault c t s)
  end.

Definition run_ops (ops : list op) (s : store) : store := foldl run_op s ops.

End Feeder.

(** ** The ISO timestamps of the ISS answers *)

Module Iso.

(** [datetime.fromisoformat] on the spellings the exchange uses:
    [YYYY-MM-DD], [YYYY-MM-DD?HH:MM:SS], an optional fraction of six digits
    and an optional UTC offset [±HH:MM].  It serves the concrete scenarios
    below; the theorems hold for any parser. *)

Definition digit (c : ascii) : option Z :=
  let n := Z.of_N (N_of_ascii c) in
  if (48 <=? n) && (n <=? 57) then Some (n - 48) else None.

Fixpoint take_digits (n : nat) (acc : Z) (l : list ascii) : option (Z * list ascii) :=
  match n, l with
  | O, _ => Some (acc, l)
  | S n', c :: rest => d ← digit c; take_digits n' (10 * acc + d) rest
  | S _, [] => None
  end.

Definition expect (c : ascii) (l : list ascii) : option (list ascii) :=
  match l with
  | c' :: rest => if decide (c' = c) then Some rest else None
  | [] => None
  end.

Definition is_leap (y : Z) : bool :=
  (y mod 4 =? 0) && (negb (y mod 100 =? 0) || (y mod 400 =? 0)).

Definition days_in_month (y m : Z) : Z :=
  if m =? 2 then (if is_leap y then 29 else 28)
  else if (m =? 4) || (m =? 6) || (m =? 9) || (m =? 11) then 30 else 31.

Definition days_before_year (y : Z) : Z :=
  let p := y - 1 in p * 365 + p `div` 4 - p `div` 100 + p `div` 400.

Definition days_before_month (y m : Z) : Z :=
  foldr (λ k acc, days_in_month y k + acc) 0 (seqZ 1 (m - 1)).

(** Days since 0001-01-01. *)
Definition days_of (y m d : Z) : Z :=
  days_before_year y + days_before_month y m + (d - 1).

Definition us_per_second : Z := 1000000.

Definition parse_offset (l : list ascii) : option (option Z) :=
  match l with
  | [] => Some None
  | sign :: rest =>
      sgn ← (if decide (sign = "+"%char) then Some 1
             else if decide (sign = "-"%char) then Some (-1) else None);
      '(hh, rest) ← take_digits 2 0 rest;
      rest ← expect ":" rest;
      '(mm, rest) ← take_digits 2 0 rest;
      match rest with
      | [] => if (hh <? 24) && (mm <? 60)
              then Some (Some (sgn * (hh * 3600 + mm * 60) * us_per_second))
              else None
      | _ => None
      end
  end.

Definition parse_time (l : list ascii) : option (Z * option Z) :=
  '(hh, l) ← take_digits 2 0 l;
  l ← expect ":" l;
  '(mi, l) ← take_digits 2 0 l;
  l ← expect ":" l;
  '(ss, l) ← take_digits 2 0 l;
  '(us, l) ← match l with
             | "."%char :: l' => take_digits 6 0 l'
             | _ => Some (0, l)
             end;
  tz ← parse_offset l;
  if (hh <? 24) && (mi <? 60) && (ss <? 60)
  then Some (((hh * 60 + mi) * 60 + ss) * us_per_second + us, tz)
  else None.

Definition fromisoformat (s : string) : option datetime :=
  '(y, l) ← take_digits 4 0 (list_ascii_of_string s);
  l ← expect "-" l;
  '(m, l) ← take_digits 2 0 l;
  l ← expect "-" l;
  '(d, l) ← take_digits 2 0 l;
  if (1 <=? y) && (1 <=? m) && (m <=? 12) && (1 <=? d) && (d <=? days_in_month y m)
  then
    match l with
    | [] => Some (naive (days_of y m d * us_per_day))
    | _ :: l =>
        '(t, tz) ← parse_time l;
        Some {| dt_us := days_of y m d * us_per_day + t; dt_tz := tz |}
    end
  else None.

End Iso.

(** ** Auxiliary notions used in the statements *)

Module Spec.

(** The set of the [begin] keys of a batch. *)
Definition begins (l : list candle) : gset string := list_to_set (get_begin <$> l).

(** The candles [filter_new_candles] selects, as a function of the seen-set
    [S] of the ticker alone. *)
Fixpoint fresh (S : gset string) (candles : list candle) : list candle :=
  match candles with
  | [] => []
  | c :: rest =>
      if decide (get_begin c = "") then fresh S rest
      else if decide (get_begin c ∈ S) then fresh S rest
      else c :: fresh (S ∪ {[get_begin c]}) rest
  end.

(** The window test in the words of the specification: the candle has a
    [begin] that parses, and it is not older than the threshold. *)
Definition within (fromisoformat : string → option datetime) (time_threshold : Z)
    (c : candle) : bool :=
  if decide (get_begin c = "") then false
  else match fromisoformat (replace_space_T (get_begin c)) with
       | None => false
       | Some d => time_threshold <=? dt_us d
       end.

(** No exception other than the [ValueError] handled inside the loop: every
    [begin] that parses gives a naive value. *)
Definition all_naive (fromisoformat : string → option datetime) (data : list candle)
    : Prop :=
  ∀ c d, c ∈ data → get_begin c ≠ "" →
    fromisoformat (replace_space_T (get_begin c)) = Some d → dt_tz d = None.

(** The threshold [now - timedelta(hours=filter_hours)] exists: neither the
    [timedelta] nor the subtraction overflows. *)
Definition representable (now filter_hours : Z) : Prop :=
  Z.abs ((filter_hours * us_per_hour) `div` us_per_day) ≤ 999999999
  ∧ 0 ≤ now - filter_hours * us_per_hour ≤ max_us.

End Spec.

(** ** Concrete runs *)

Module Scenario.

Definition bar (begin_str : string) : candle :=
  {| c_begin := Some begin_str; c_end := None;
     c_open := None; c_close := None; c_high := None; c_low := None;
     c_value := None; c_volume := None |}.

Definition c0930 : candle := bar "2024-01-15 09:30:00".
Definition c0931 : candle := bar "2024-01-15 09:31:00".
Definition c0932 : candle := bar "2024-01-15 09:32:00".

(** 2024-01-15T10:00:00 *)
Definition ten : Z := 63840909600000000.

Definition start : world :=
  {| mon := {| cache := ∅; index_cache := ∅ |}; connected := true;
     ticker_candles := []; index_values := []; calls := [] |}.

(** The source returns the three candles, the store accepts every insert and
    there is no index snapshot. *)
Definition env : cycle_env :=
  {| env_now := ten;
     env_candles := λ _, Ok [c0930; c0931; c0932];
     env_exec_candles := λ _, None;
     env_index := Ok None;
     env_exec_index := None |}.

(** The same, with a store that refuses the candle insert. *)
Definition env_down : cycle_env :=
  {| env_now := ten;
     env_candles := λ _, Ok [c0930; c0931; c0932];
     env_exec_candles := λ _, Some {| raised := OtherError "ChClientError";
                                      accepted := λ _, false |};
     env_index := Ok None;
     env_exec_index := None |}.

(** A response in which one [begin] carries a UTC offset. *)
Definition c_aware : candle := bar "2024-01-15 09:31:00+03:00".

Definition env_aware : cycle_env :=
  {| env_now := ten;
     env_candles := λ _, Ok [c0930; c_aware];
     env_exec_candles := λ _, None;
     env_index := Ok None;
     env_exec_index := None |}.

(** A response with a candle exactly one hour old and one a microsecond
    older. *)
Definition c0900 : candle := bar "2024-01-15 09:00:00".
Definition c0859 : candle := bar "2024-01-15 08:59:59.999999".

Definition env_boundary : cycle_env :=
  {| env_now := ten;
     env_candles := λ _, Ok [c0859; c0900; c0930];
     env_exec_candles := λ _, None;
     env_index := Ok None;
     env_exec_index := None |}.

(** An index snapshot and a cycle that fetches it. *)
Definition imoex : index_data :=
  {| SECID := Some "IMOEX"; SYSTIME := Some "2024-01-15 10:00:00";
     TRADEDATE := Some "2024-01-15"; columns := [] |}.

Definition env_index_only : cycle_env :=
  {| env_now := ten;
     env_candles := λ _, Ok [];
     env_exec_candles := λ _, None;
     env_index := Ok (Some imoex);
     env_exec_index := None |}.

(** A channel with one text message, polled while the store is out of reach
    for the existence query of [save_news]. *)
Definition hello : Feeder.message :=
  {| Feeder.m_id := 7; Feeder.m_text := Some (Parser.codes "Hello #Tech and #tech!");
     Feeder.m_date := {| dt_us := ten; dt_tz := Some 0 |} |}.

Definition utcnow : datetime := {| dt_us := ten + 60000000; dt_tz := Some 0 |}.

Definition poll_ok : Feeder.poll_env :=
  {| Feeder.env_get_entity := None;
     Feeder.env_get_messages := Ok [hello];
     Feeder.env_save := λ _, Feeder.quiet;
     Feeder.env_utcnow := utcnow;
     Feeder.env_poll_fault := None |}.

Definition poll_save_fails : Feeder.poll_env :=
  {| Feeder.env_get_entity := None;
     Feeder.env_get_messages := Ok [hello];
     Feeder.env_save := λ _,
       {| Feeder.exists_fault := Some (OtherError "OperationalError");
          Feeder.interleaved := []; Feeder.commit_fault := None |};
     Feeder.env_utcnow := utcnow;
     Feeder.env_poll_fault := None |}.

(** The Unicode tables are not consulted on ASCII text. *)
Definition no_word : N → bool := λ _, false.
Definition no_lower : Parser.str → nat → list N := λ _ _, [].

End Scenario.

(** ** The callers and the callees of the two cycles *)

(** [MoexMarketClient.get_moex_index] *)
Module Client.

(** [_ensure_session]: [session] is [self._session is not None]. *)
Definition _ensure_session (session : bool) : result unit :=
  if session then Ok tt else Raise RuntimeError.

(** [board] is the answer of [history.get_board_securities]; every handler of
    the method re-raises.  The item returned is the first whose [SECID] is the
    index name: [next((item for item in data if item.get("SECID") ==
    index_name), None)]. *)
Definition get_moex_index (session : bool) (board : result (list index_data))
    (index_name : string) : result (option index_data) :=
  match _ensure_session session with
  | Raise e => Raise e
  | Ok _ =>
      match board with
      | Raise e => Raise e
      | Ok data =>
          Ok (List.find (λ item, bool_decide (SECID item = Some index_name)) data)
      end
  end.

(** [VALID_INTERVALS] and [_validate_interval] *)
Definition VALID_INTERVALS : list Z := [1; 10; 60; 24; 7; 31; 4].

Definition _validate_interval (interval : Z) : result unit :=
  if decide (interval ∈ VALID_INTERVALS) then Ok tt else Raise ValueError.

Section Digits.

(** [\d] on a [str] pattern: the ASCII digits, and beyond ASCII the decimal
    digits of the Unicode database. *)
Variable uni_digit : N → bool.

Definition digit (c : N) : bool :=
  if (c <? 128)%N then (48 <=? c)%N && (c <=? 57)%N else uni_digit c.

(** [\d{n}]: the text after [n] digits. *)
Fixpoint digits (n : nat) (s : Parser.str) : option Parser.str :=
  match n with
  | O => Some s
  | S n' =>
      match s with
      | c :: rest => if digit c then digits n' rest else None
      | [] => None
      end
  end.

(** The hyphen of the pattern. *)
Definition hyphen (s : Parser.str) : option Parser.str :=
  match s with
  | c :: rest => if (c =? 45)%N then Some rest else None
  | [] => None
  end.

(** [$]: the end of the string, or the line break that ends it. *)
Definition at_end (s : Parser.str) : bool :=
  match s with
  | [] => true
  | [c] => (c =? 10)%N
  | _ => false
  end.

(** [re.match(DATE_FORMAT, date_str)] with
    [DATE_FORMAT = r"^\d{4}-\d{2}-\d{2}$"]: every piece of the pattern has one
    length, so the match is one pass from the start of the string. *)
Definition date_format (date_str : Parser.str) : bool :=
  match digits 4 date_str with
  | None => false
  | Some rest =>
  match hyphen rest with
  | None => false
  | Some rest =>
  match digits 2 rest with
  | None => false
  | Some rest =>
  match hyphen rest with
  | None => false
  | Some rest =>
  match digits 2 rest with
  | None => false
  | Some rest => at_end rest
  end end end end end.

Definition _validate_date (date_str : Parser.str) : result unit :=
  if date_format date_str then Ok tt else Raise ValueError.

(** [if start_date: _validate_date(start_date, ...)] *)
Definition validate_if_given (date_str : option Parser.str) : result unit :=
  match date_str with
  | Some (c :: rest) => _validate_date (c :: rest)
  | _ => Ok tt
  end.

(** [MoexMarketClient.get_ticker_data]: [resp] is the answer of
    [candles.get_market_candles], whose exceptions every handler re-raises. *)
Definition get_ticker_data (session : bool) (start_date end_date : option Parser.str)
    (interval : Z) (resp : result (list candle)) : result (list candle) :=
  match _ensure_session session with
  | Raise e => Raise e
  | Ok _ =>
      match validate_if_given start_date with
      | Raise e => Raise e
      | Ok _ =>
          match validate_if_given end_date with
          | Raise e => Raise e
          | Ok _ =>
              match _validate_interval interval with
              | Raise e => Raise e
              | Ok _ => resp
              end
          end
      end
  end.

(** The dates the pattern accepts, in words: four digits, two digits and two
    digits with hyphens between, and nothing after them but, at most, one line
    break. *)
Definition date_shaped (s : Parser.str) : Prop :=
  ∃ y m d nl, s = y ++ 45%N :: m ++ 45%N :: d ++ nl
    ∧ length y = 4%nat ∧ length m = 2%nat ∧ length d = 2%nat
    ∧ Forall (λ c, digit c = true) (y ++ m ++ d)
    ∧ (nl = [] ∨ nl = [10%N]).

(** The parameters that pass the checks of [get_ticker_data]. *)
Definition accepted (start_date end_date : option Parser.str) (interval : Z) : Prop :=
  (∀ s, start_date = Some s → s ≠ [] → date_shaped s)
  ∧ (∀ s, end_date = Some s → s ≠ [] → date_shaped s)
  ∧ interval ∈ VALID_INTERVALS.

End Digits.

End Client.

(** [MarketMonitor.run] *)
Module Loop.

(** [datetime.second] of a naive reading. *)
Definition second (now : Z) : Z := (now `div` 1000000) `mod` 60.

(** One turn of the [while True] loop: the cycle, then the sleep until the
    next minute, 60 seconds after an exception; [after] is the clock read once
    the cycle is over, and the value returned is the time slept, in seconds. *)
Definition run_iteration (fromisoformat : string → option datetime) (filter_hours : Z)
    (env : cycle_env) (after : Z) : M world Z :=
  try_except
    (Monitor.monitor_cycle fromisoformat filter_hours env;;
     let wait_seconds := 60 - second after in
     if 0 <? wait_seconds then mret wait_seconds else mret 0)
    (λ _, mret 60).

(** The turns of the loop for the successive answers of the outside world. *)
Definition run (fromisoformat : string → option datetime) (filter_hours : Z)
    (turns : list (cycle_env * Z)) (w : world) : world :=
  foldl (λ w turn, snd (run_iteration fromisoformat filter_hours turn.1 turn.2 w))
        w turns.

(** The key under which a stored row was deduplicated: the ticker and the raw
    [begin] string of its candle. *)
Definition row_key (r : candle_row) : string * string :=
  (r_ticker r, get_begin (r_candle r)).

(** Every stored row was marked, and no key was stored twice. *)
Definition stored_once (w : world) : Prop :=
  NoDup (row_key <$> ticker_candles w)
  ∧ ∀ r, r ∈ ticker_candles w → get_begin (r_candle r) ∈ seen_of (r_ticker r) (mon w).

End Loop.

(** The rest of [Database] and of [NewsFeeder] *)
Module FeederMore.

Import Parser Feeder.

(** The point in time of a [datetime], in microseconds of UTC since
    0001-01-01T00:00:00; a naive value is read as UTC. *)
Definition instant (d : datetime) : Z := dt_us d - default 0 (dt_tz d).

(** What a [TIMESTAMP(timezone=True)] column gives back for the value written
    to it: the same point in time, as a UTC value. *)
Definition as_stored (d : datetime) : datetime :=
  {| dt_us := instant d; dt_tz := Some 0 |}.

(** [Database.get_last_poll_state]: the row is loaded in a session of its own,
    so [last_poll_time] is read from the column. *)
Definition get_last_poll_state (fault : option exn) (c : string)
    : M store (option datetime) :=
  match fault with
  | Some e => raise e
  | None => s ← get; mret (as_stored <$> polling_state s !! c)
  end.

(** [Database.create_tables]: [drop_all] removes both tables with their rows
    and the [id] sequence, [create_all] creates the tables that are missing. *)
Definition create_tables (fault : option exn) (drop_existing : bool) : M store unit :=
  match fault with
  | Some e => raise e
  | None => if drop_existing then modify (λ _, empty_store) else mret tt
  end.

(** [NewsFeeder.poll_all_channels]: the channels in order, each with the
    answers [envs i] of the outside world for the [i]-th of them. *)
Fixpoint poll_all_channels (uni_word : N → bool) (uni_lower : str → nat → list N)
    (envs : nat → poll_env) (channels : list string) (i : nat) : M store unit :=
  match channels with
  | [] => mret tt
  | channel_name :: rest =>
      poll_channel uni_word uni_lower (envs i) channel_name;;
      poll_all_channels uni_word uni_lower envs rest (S i)
  end.

(** What the outside world does while [main] starts: failures of
    [db.connect], of [create_tables] and of [client.start]. *)
Record start_env : Type := {
  connect_fault : option exn;
  create_fault : option exn;
  start_fault : option exn
}.

(** [main] of the feeder, from [db.connect()] on: the tables are created with
    [drop_existing=True], the client is started and [run] polls all channels;
    an exception is logged and raised again.  The closing of the connections
    in the [finally] of [run] does not touch the tables and is left out. *)
Definition main (uni_word : N → bool) (uni_lower : str → nat → list N)
    (senv : start_env) (envs : nat → poll_env) (channels : list string) : M store unit :=
  try_except
    (match connect_fault senv with Some e => raise e | None => mret tt end;;
     create_tables (create_fault senv) true;;
     match start_fault senv with Some e => raise e | None => mret tt end;;
     try_except (poll_all_channels uni_word uni_lower envs channels 0%nat)
                (λ e, raise e))
    (λ e, raise e).

(** The keys of the rows are pairwise distinct. *)
Definition unique_keys (s : store) : Prop :=
  ∀ m c, (count_rows m c s ≤ 1)%nat.

(** A poll that the outside world lets through: the channel is resolved, its
    messages are fetched, the store answers every save and the cursor update. *)
Definition healthy (env : poll_env) : Prop :=
  env_get_entity env = None
  ∧ is_ok (env_get_messages env) = true
  ∧ (∀ i, answers (env_save env i))
  ∧ env_poll_fault env = None.

(** The messages of a poll that have a text. *)
Definition with_text (messages : list message) : list message :=
  List.filter (λ msg, match m_text msg with
                      | Some (_ :: _) => true
                      | _ => false
                      end) messages.

End FeederMore.

(** Notions used in the statements about the monitor *)
Module Spec2.

(** A store that keeps nothing of an insert it fails. *)
Definition atomic (exec : option failure) : Prop :=
  ∀ f, exec = Some f → ∀ i, accepted f i = false.

Section WithParser.

Variable fromisoformat : string → option datetime.

(** A candle that the loop of [fetch_ticker_data] keeps. *)
Definition kept (time_threshold : Z) (c : candle) : Prop :=
  get_begin c ≠ ""
  ∧ ∃ d, fromisoformat (replace_space_T (get_begin c)) = Some d
         ∧ dt_tz d = None ∧ time_threshold ≤ dt_us d.

(** A row as [insert_ticker_candles_batch] builds it from a candle. *)
Definition row_of (ticker : string) (r : candle_row) : Prop :=
  r_ticker r = ticker
  ∧ get_begin (r_candle r) ≠ ""
  ∧ fromisoformat (replace_space_T (get_begin (r_candle r))) = Some (r_begin r)
  ∧ r_trade_date r = date (r_begin r).

(** A candle that reaches the parse of its [end], a non-empty string that
    does not parse. *)
Definition bad_end (c : candle) : Prop :=
  get_begin c ≠ ""
  ∧ is_Some (fromisoformat (replace_space_T (get_begin c)))
  ∧ ∃ end_str, c_end c = Some end_str ∧ end_str ≠ ""
               ∧ fromisoformat (replace_space_T end_str) = None.

End WithParser.

End Spec2.

(** Notions used in the statements about the tags *)
Module ParserSpec.

(** A text of ASCII characters. *)
Definition is_ascii (s : Parser.str) : Prop := Forall (λ c, (c < 128)%N) s.

End ParserSpec.

(** Further concrete runs *)
Module Scenario2.

Import Scenario.

(** A candle whose [end] does not parse. *)
Definition c_bad_end : candle :=
  {| c_begin := Some "2024-01-15 09:33:00"; c_end := Some "soon";
     c_open := None; c_close := None; c_high := None; c_low := None;
     c_value := None; c_volume := None |}.



(** The store refuses the insert and keeps the first row of it. *)
Definition env_keeps_first : cycle_env :=
  {| env_now := ten;
     env_candles := λ _, Ok [c0930; c0931];
     env_exec_candles := λ _, Some {| raised := OtherError "ChClientError";
                                      accepted := λ i, bool_decide (i = 0%nat) |};
     env_index := Ok None;
     env_exec_index := None |}.

(** A candle whose [begin] does not parse. *)
Definition c_no_time : candle := bar "yesterday".

(** A store that holds one message of the channel. *)
Definition one_row : Feeder.store :=
  snd (Feeder.save_news Feeder.quiet 7 "markets" utcnow [Parser.codes "tech"]
         (Parser.codes "Hello #Tech and #tech!") Feeder.empty_store).

(** The same message, stored by another writer after the existence check. *)
Definition rival : Feeder.News :=
  {| Feeder.id := 0; Feeder.msg_id := 7; Feeder.channel := "markets";
     Feeder.date := utcnow; Feeder.tags := []; Feeder.text := Parser.codes "first" |}.

Definition racing : Feeder.save_env :=
  {| Feeder.exists_fault := None; Feeder.interleaved := [rival];
     Feeder.commit_fault := None |}.

Definition commit_down : Feeder.save_env :=
  {| Feeder.exists_fault := None; Feeder.interleaved := [];
     Feeder.commit_fault := Some (OtherError "OperationalError") |}.

(** A channel that cannot be resolved. *)
Definition poll_private : Feeder.poll_env :=
  {| Feeder.env_get_entity := Some ChannelPrivateError;
     Feeder.env_get_messages := Ok [hello];
     Feeder.env_save := λ _, Feeder.quiet;
     Feeder.env_utcnow := utcnow;
     Feeder.env_poll_fault := None |}.

End Scenario2.

(** * Properties *)

(** ** The seen-set of [filter_new_candles] *)

Module MonitorFacts.

Import Monitor Spec.

#[local] Set Warnings "-clear-no-such-hyp".

Lemma filter_loop_fresh ticker candles : ∀ new_candles cache S,
  cache !! ticker = Some S →
  filter_loop ticker candles new_candles cache
  = (new_candles ++ fresh S candles, <[ticker := S ∪ begins (fresh S candles)]> cache).
Proof.
  induction candles as [|c rest IH]; intros acc cache S HS; simpl.
  - rewrite app_nil_r. f_equal. unfold begins; simpl.
    rewrite (right_id_L ∅ (∪)). by rewrite insert_id.
  - rewrite (lookup_total_correct _ _ _ HS).
    destruct (decide (get_begin c = "")); [by apply IH|].
    destruct (decide (get_begin c ∈ S)); [by apply IH|].
    rewrite (IH _ (<[ticker:=S ∪ {[get_begin c]}]> cache) (S ∪ {[get_begin c]}))
      by apply lookup_insert_eq.
    rewrite <- app_assoc. simpl. f_equal.
    rewrite insert_insert_eq. f_equal.
    unfold begins. simpl. set_solver.
Qed.

Lemma ensure_ticker_lookup ticker cache :
  ensure_ticker ticker cache !! ticker = Some (default ∅ (cache !! ticker)).
Proof.
  unfold ensure_ticker. destruct (cache !! ticker) eqn:E; simpl; [done|].
  apply lookup_insert_eq.
Qed.

Lemma ensure_ticker_other ticker t' cache :
  t' ≠ ticker → ensure_ticker ticker cache !! t' = cache !! t'.
Proof.
  intros Hne. unfold ensure_ticker. destruct (cache !! ticker); [done|].
  by rewrite lookup_insert_ne.
Qed.

(** [filter_new_candles] in closed form. *)
Lemma filter_new_candles_eq ticker candles cache :
  let S := default ∅ (cache !! ticker) in
  filter_new_candles ticker candles cache
  = (fresh S candles,
     <[ticker := S ∪ begins (fresh S candles)]> (ensure_ticker ticker cache)).
Proof.
  intros S. unfold filter_new_candles.
  by rewrite (filter_loop_fresh _ _ _ _ S) by apply ensure_ticker_lookup.
Qed.

Lemma fresh_sublist candles : ∀ S, sublist (fresh S candles) candles.
Proof.
  induction candles as [|c rest IH]; intros S; simpl; [constructor|].
  repeat case_decide; try (constructor; apply IH).
Qed.

Lemma fresh_new candles : ∀ S c,
  c ∈ fresh S candles → get_begin c ≠ "" ∧ get_begin c ∉ S.
Proof.
  induction candles as [|x rest IH]; intros S c; simpl; [by intros ?%elem_of_nil|].
  repeat case_decide; try apply IH.
  intros [->|Hin]%elem_of_cons; [done|].
  apply IH in Hin as [? ?]. split; [done|set_solver].
Qed.

Lemma fresh_NoDup candles : ∀ S, NoDup (get_begin <$> fresh S candles).
Proof.
  induction candles as [|x rest IH]; intros S; simpl; [constructor|].
  repeat case_decide; try apply IH.
  simpl. constructor; [|apply IH].
  intros (c & Heq & Hin)%list_elem_of_fmap.
  apply fresh_new in Hin as [_ Hin]. set_solver.
Qed.

Lemma fresh_covers candles : ∀ S c,
  c ∈ candles → get_begin c ≠ "" → get_begin c ∈ S ∪ begins (fresh S candles).
Proof.
  induction candles as [|x rest IH]; intros S c; [by intros ?%elem_of_nil|].
  intros [->|Hin]%elem_of_cons Hne; simpl.
  - repeat case_decide; try done; [set_solver|].
    unfold begins; simpl. set_solver.
  - specialize (IH S c Hin Hne) as IH1.
    repeat case_decide; try done.
    specialize (IH (S ∪ {[get_begin x]}) c Hin Hne).
    unfold begins in *; simpl. set_solver.
Qed.

Lemma fresh_none candles : ∀ S,
  (∀ c, c ∈ candles → get_begin c ≠ "" → get_begin c ∈ S) → fresh S candles = [].
Proof.
  induction candles as [|x rest IH]; intros S Hall; simpl; [done|].
  repeat case_decide; try (apply IH; intros; apply Hall; set_solver).
  exfalso. set_solver.
Qed.

(** Selecting again after the selected keys were marked selects nothing. *)
Lemma fresh_again candles S : fresh (S ∪ begins (fresh S candles)) candles = [].
Proof. apply fresh_none. intros c Hin Hne. by apply fresh_covers. Qed.


(** *** The rollback *)

Lemma discard_begin_lookup ticker cache c :
  default ∅ (discard_begin ticker cache c !! ticker)
  = default ∅ (cache !! ticker) ∖ {[get_begin c]}.
Proof.
  unfold discard_begin. case_decide as Hin.
  - rewrite lookup_insert_eq. simpl.
    destruct (cache !! ticker) as [S|] eqn:E; simpl in *; [|set_solver].
    by rewrite (lookup_total_correct _ _ _ E).
  - set_solver.
Qed.

Lemma discard_begin_other ticker t' cache c :
  t' ≠ ticker → discard_begin ticker cache c !! t' = cache !! t'.
Proof.
  intros Hne. unfold discard_begin. case_decide; [|done].
  by rewrite lookup_insert_ne.
Qed.

Lemma rollback_lookup ticker new_data : ∀ cache,
  default ∅ (rollback ticker new_data cache !! ticker)
  = default ∅ (cache !! ticker) ∖ begins new_data.
Proof.
  unfold rollback.
  induction new_data as [|c rest IH]; intros cache; simpl.
  - unfold begins; simpl. set_solver.
  - rewrite IH, discard_begin_lookup. unfold begins; simpl. set_solver.
Qed.

Lemma rollback_other ticker t' new_data : ∀ cache,
  t' ≠ ticker → rollback ticker new_data cache !! t' = cache !! t'.
Proof.
  unfold rollback.
  induction new_data as [|c rest IH]; intros cache Hne; simpl; [done|].
  rewrite IH by done. by apply discard_begin_other.
Qed.

(** *** The monitor's methods on the world *)

Lemma set_cache_id w : set_cache (λ _, cache (mon w)) w = w.
Proof. by destruct w as [[? ?] ? ? ? ?]. Qed.

Lemma add_candle_rows_nil w : add_candle_rows [] w = w.
Proof. destruct w. unfold add_candle_rows. simpl. by rewrite app_nil_r. Qed.

Lemma accepted_from_sublist {A} keep (rows : list A) : ∀ i,
  sublist (accepted_from keep i rows) rows.
Proof.
  induction rows as [|r rest IH]; intros i; simpl; [constructor|].
  destruct (keep i); constructor; apply IH.
Qed.

Lemma accepted_from_fmap {A B} (g : A → B) keep (rows : list A) : ∀ i,
  g <$> accepted_from keep i rows = accepted_from keep i (g <$> rows).
Proof.
  induction rows as [|r rest IH]; intros i; simpl; [done|].
  destruct (keep i); simpl; by rewrite IH.
Qed.

Lemma accepted_from_none {A} keep (rows : list A) : ∀ i,
  (∀ j, keep j = false) → accepted_from keep i rows = [].
Proof.
  induction rows as [|r rest IH]; intros i Hno; simpl; [done|].
  rewrite Hno. by apply IH.
Qed.

Lemma filter_new_candlesM_eq ticker candles w :
  let S := seen_of ticker (mon w) in
  filter_new_candlesM ticker candles w
  = (Ok (fresh S candles),
     set_cache (λ _, <[ticker := S ∪ begins (fresh S candles)]>
                       (ensure_ticker ticker (cache (mon w)))) w).
Proof.
  intros S. unfold filter_new_candlesM. by rewrite filter_new_candles_eq.
Qed.

Section WithParser.

Variable fromisoformat : string → option datetime.
Variable filter_hours : Z.

(** The insert call is logged with the membership sets of the caller, and it
    leaves them alone. *)
Lemma insert_batch_calls exec ticker new_data w :
  calls (snd (insert_ticker_candles_batch fromisoformat exec ticker new_data w))
  = calls w ++ [InsertCandles ticker new_data (mon w)]
  ∧ mon (snd (insert_ticker_candles_batch fromisoformat exec ticker new_data w)) = mon w.
Proof.
  unfold insert_ticker_candles_batch, mbind, M_bind, get, modify, raise, lift, mret, M_ret.
  simpl. destruct (connected w); simpl; [|done].
  destruct new_data as [|c l]; [done|].
  destruct (build_values _ _ _ _) as [[|r rows]|e]; simpl; try done.
  by destruct exec.
Qed.


(** [save_ticker_data] on a batch that is not empty: the insert, and the
    rollback when it raises. *)
Lemma save_ticker_step env ticker data new_data w :
  data ≠ [] → new_data ≠ [] →
  save_ticker_data fromisoformat env ticker data (Some new_data) w
  = match insert_ticker_candles_batch fromisoformat (env_exec_candles env ticker) ticker new_data w with
    | (Ok _, w') => (Ok tt, w')
    | (Raise _, w') => (Ok tt, set_cache (rollback ticker new_data) w')
    end.
Proof.
  intros Hd Hn. destruct data as [|d0 data]; [done|].
  destruct new_data as [|n0 new_data]; [done|].
  unfold save_ticker_data, resolve_new_data, try_except, mbind, M_bind, mret, M_ret, modify.
  destruct (insert_ticker_candles_batch _ _ _ _ _) as [[[]|e] w']; done.
Qed.

Lemma save_ticker_nothing env ticker data w :
  save_ticker_data fromisoformat env ticker data (Some []) w = (Ok tt, w).
Proof. by destruct data. Qed.

Lemma process_ticker_eq env ticker w :
  let data := fetch_ticker_data fromisoformat filter_hours env ticker in
  let S := seen_of ticker (mon w) in
  data ≠ [] →
  process_ticker fromisoformat filter_hours env ticker w
  = (Ok tt,
     snd (save_ticker_data fromisoformat env ticker data (Some (fresh S data))
            (set_cache (λ _, <[ticker := S ∪ begins (fresh S data)]>
                               (ensure_ticker ticker (cache (mon w)))) w))).
Proof.
  intros data S Hd. unfold process_ticker, try_except. fold data.
  destruct data as [|d0 data'] eqn:E; [done|]. rewrite <- E in *.
  unfold mbind, M_bind. rewrite filter_new_candlesM_eq. fold S.
  lazy beta iota.
  destruct (save_ticker_data _ _ _ _ _ _) as [[[]|e] w']; done.
Qed.

Lemma process_ticker_idle env ticker w :
  fetch_ticker_data fromisoformat filter_hours env ticker = [] →
  process_ticker fromisoformat filter_hours env ticker w = (Ok tt, w).
Proof. intros E. unfold process_ticker, try_except. by rewrite E. Qed.


(** [save_ticker_data] when the insert it makes raises. *)
Lemma save_ticker_failed env ticker data new_data w nd w1 e w' :
  data ≠ [] →
  resolve_new_data ticker data new_data w = (Ok nd, w1) →
  nd ≠ [] →
  insert_ticker_candles_batch fromisoformat (env_exec_candles env ticker) ticker nd w1
  = (Raise e, w') →
  save_ticker_data fromisoformat env ticker data new_data w
  = (Ok tt, set_cache (rollback ticker nd) w')
  ∧ mon w' = mon w1.
Proof.
  intros Hd Hr Hn Hi. split.
  - destruct data as [|d0 data]; [done|].
    unfold save_ticker_data, mbind, M_bind. rewrite Hr.
    destruct nd as [|n0 nd]; [done|].
    unfold try_except. by rewrite Hi.
  - destruct (insert_batch_calls (env_exec_candles env ticker) ticker nd w1) as [_ Hm].
    by rewrite Hi in Hm.
Qed.

Lemma filter_nothing_new ticker data w S :
  cache (mon w) !! ticker = Some S → fresh S data = [] →
  filter_new_candlesM ticker data w = (Ok [], w).
Proof.
  intros HS Hf. rewrite filter_new_candlesM_eq. unfold seen_of.
  rewrite HS. simpl. rewrite Hf. f_equal.
  unfold begins. simpl. rewrite (right_id_L ∅ (∪)).
  unfold ensure_ticker. rewrite HS. rewrite insert_id by done.
  apply set_cache_id.
Qed.

End WithParser.

(** C9. [filter_new_candles] returns, in the order of the input, candles whose
    [begin] is not empty, that were not in the seen-set of the ticker and whose
    [begin] values are pairwise distinct; afterwards the seen-set of the ticker
    is the former one together with exactly the [begin] values of the returned
    candles, and the entries of the other tickers are as before. *)
Theorem filter_new_candles_postcondition ticker candles
    (cache : gmap string (gset string)) :
  let S := default ∅ (cache !! ticker) in
  let new_candles := fst (filter_new_candles ticker candles cache) in
  let cache' := snd (filter_new_candles ticker candles cache) in
  sublist new_candles candles
  ∧ (∀ c, c ∈ new_candles → get_begin c ≠ "" ∧ get_begin c ∉ S)
  ∧ NoDup (get_begin <$> new_candles)
  ∧ cache' !! ticker = Some (S ∪ begins new_candles)
  ∧ (∀ t', t' ≠ ticker → cache' !! t' = cache !! t').
Proof.
  intros S new_candles cache'. subst new_candles cache'.
  rewrite filter_new_candles_eq. fold S. simpl.
  split_and!.
  - apply fresh_sublist.
  - apply fresh_new.
  - apply fresh_NoDup.
  - apply lookup_insert_eq.
  - intros t' Hne. rewrite lookup_insert_ne by done.
    by apply ensure_ticker_other.
Qed.

(** C10. When the batched insert made by [save_ticker_data] raises, the
    seen-set of the ticker loses the [begin] values of the failed batch and
    nothing else: a key outside the batch is a member exactly as before, the
    entries of every other ticker are the same, and so is the index cache. *)
Theorem rollback_touches_only_the_batch (fromisoformat : string → option datetime)
    env ticker data new_data w nd w1 e w' :
  data ≠ [] →
  resolve_new_data ticker data new_data w = (Ok nd, w1) →
  nd ≠ [] →
  insert_ticker_candles_batch fromisoformat (env_exec_candles env ticker) ticker nd w1
  = (Raise e, w') →
  let w2 := snd (save_ticker_data fromisoformat env ticker data new_data w) in
  seen_of ticker (mon w2) = seen_of ticker (mon w1) ∖ begins nd
  ∧ (∀ b, b ∉ begins nd →
       (b ∈ seen_of ticker (mon w2) ↔ b ∈ seen_of ticker (mon w1)))
  ∧ (∀ t', t' ≠ ticker → cache (mon w2) !! t' = cache (mon w1) !! t')
  ∧ index_cache (mon w2) = index_cache (mon w1).
Proof.
  intros Hd Hr Hn Hi w2. subst w2.
  destruct (save_ticker_failed _ _ _ _ _ _ _ _ _ _ Hd Hr Hn Hi) as [-> Hm].
  simpl. rewrite Hm.
  assert (Hl := rollback_lookup ticker nd (cache (mon w1))).
  unfold seen_of; simpl. split_and!.
  - done.
  - intros b Hb. rewrite Hl. set_solver.
  - intros t' Hne. by apply rollback_other.
  - done.
Qed.

Lemma elem_of_begins b l : b ∈ begins l ↔ ∃ c, c ∈ l ∧ get_begin c = b.
Proof.
  unfold begins. rewrite elem_of_list_to_set, list_elem_of_fmap. naive_solver.
Qed.

Lemma calls_set_cache f w : calls (set_cache f w) = calls w.
Proof. done. Qed.

(** The insert call that [save_ticker_data] makes for a batch. *)
Lemma save_ticker_calls fromisoformat env ticker data new_data w :
  data ≠ [] → new_data ≠ [] →
  calls (snd (save_ticker_data fromisoformat env ticker data (Some new_data) w))
  = calls w ++ [InsertCandles ticker new_data (mon w)].
Proof.
  intros Hd Hn. rewrite save_ticker_step by done.
  destruct (insert_batch_calls fromisoformat (env_exec_candles env ticker)
              ticker new_data w) as [Hc _].
  destruct (insert_ticker_candles_batch _ _ _ _ _) as [[[]|e] w']; simpl in *; done.
Qed.

(** C1. After [filter_new_candles] and a [save_ticker_data] whose insert did
    not raise, the same [data] selects nothing, [save_ticker_data] returns at
    once, and a cycle that fetches the same [data] leaves the world (rows,
    seen-sets, calls) unchanged.  In the run with
    the candles 09:30, 09:31 and 09:32, [filter_hours = 1] and the clock at
    10:00, all three pass the window, the first cycle stores three rows, the
    second none, and the seen-set of the ticker has three elements. *)
Theorem ingestion_is_idempotent (fromisoformat : string → option datetime)
    (filter_hours : Z) env env2 ticker data w0 nd w1 :
  filter_new_candlesM ticker data w0 = (Ok nd, w1) →
  (nd ≠ [] →
   is_ok (fst (insert_ticker_candles_batch fromisoformat
                 (env_exec_candles env ticker) ticker nd w1)) = true) →
  let w2 := snd (save_ticker_data fromisoformat env ticker data (Some nd) w1) in
  (filter_new_candlesM ticker data w2 = (Ok [], w2)
   ∧ save_ticker_data fromisoformat env2 ticker data (Some []) w2 = (Ok tt, w2)
   ∧ (fetch_ticker_data fromisoformat filter_hours env2 ticker = data →
      process_ticker fromisoformat filter_hours env2 ticker w2 = (Ok tt, w2)))
  ∧ (let run := monitor_cycle Iso.fromisoformat 1 Scenario.env in
     let first := snd (run Scenario.start) in
     let second := snd (run first) in
     fetch_ticker_data Iso.fromisoformat 1 Scenario.env "SBER"
     = [Scenario.c0930; Scenario.c0931; Scenario.c0932]
     ∧ length (ticker_candles first) = 3%nat
     ∧ length (ticker_candles second) = 3%nat
     ∧ size (seen_of "SBER" (mon second)) = 3%nat).
Proof.
  intros Hf Hok w2. split; [|by vm_compute].
  rewrite filter_new_candlesM_eq in Hf. injection Hf as Hnd Hw1.
  set (S0 := seen_of ticker (mon w0)) in *.
  assert (HS : cache (mon w2) !! ticker = Some (S0 ∪ begins nd)).
  { assert (H1 : cache (mon w1) !! ticker = Some (S0 ∪ begins nd)).
    { rewrite <- Hw1. simpl. rewrite lookup_insert_eq. by rewrite Hnd. }
    subst w2. destruct nd as [|n0 nd'] eqn:En.
    - by rewrite save_ticker_nothing.
    - assert (Hd : data ≠ []) by (intros ->; simpl in Hnd; done).
      rewrite save_ticker_step by done.
      specialize (Hok ltac:(done)).
      destruct (insert_batch_calls fromisoformat (env_exec_candles env ticker)
                  ticker (n0 :: nd') w1) as [_ Hm].
      destruct (insert_ticker_candles_batch _ _ _ _ _) as [[[]|e] w']; [|done].
      simpl in *. by rewrite Hm. }
  assert (Hnone : filter_new_candlesM ticker data w2 = (Ok [], w2)).
  { eapply filter_nothing_new; [exact HS|].
    rewrite <- Hnd. apply fresh_again. }
  split_and!.
  - done.
  - apply save_ticker_nothing.
  - intros Hfetch. unfold process_ticker, try_except. rewrite Hfetch.
    destruct data as [|d0 data']; [done|].
    unfold mbind, M_bind. rewrite Hnone. by rewrite save_ticker_nothing.
Qed.

Lemma ingestion_is_idempotent_witness :
  let data := [Scenario.c0930; Scenario.c0931; Scenario.c0932] in
  let w1 := snd (filter_new_candlesM "SBER" data Scenario.start) in
  let w2 := snd (save_ticker_data Iso.fromisoformat Scenario.env "SBER" data
                   (Some data) w1) in
  length (ticker_candles w2) = 3%nat
  ∧ filter_new_candlesM "SBER" data w2 = (Ok [], w2)
  ∧ process_ticker Iso.fromisoformat 1 Scenario.env "SBER" w2 = (Ok tt, w2).
Proof.
  intros data w1 w2. split; [by vm_compute|].
  destruct (ingestion_is_idempotent Iso.fromisoformat 1 Scenario.env Scenario.env
              "SBER" data Scenario.start data w1) as [(Hsel & _ & Hcycle) _].
  - by vm_compute.
  - intros _. by vm_compute.
  - split; [exact Hsel|]. apply Hcycle. by vm_compute.
Defined.

Lemma rollback_touches_only_the_batch_witness :
  let data := [Scenario.c0930; Scenario.c0931; Scenario.c0932] in
  let w1 := snd (filter_new_candlesM "SBER" data Scenario.start) in
  let w2 := snd (save_ticker_data Iso.fromisoformat Scenario.env_down "SBER" data
                   (Some data) w1) in
  seen_of "SBER" (mon w2) = seen_of "SBER" (mon w1) ∖ begins data
  ∧ (∀ b, b ∉ begins data →
       (b ∈ seen_of "SBER" (mon w2) ↔ b ∈ seen_of "SBER" (mon w1)))
  ∧ (∀ t', t' ≠ "SBER" → cache (mon w2) !! t' = cache (mon w1) !! t')
  ∧ index_cache (mon w2) = index_cache (mon w1).
Proof.
  intros data w1 w2.
  apply (rollback_touches_only_the_batch Iso.fromisoformat Scenario.env_down
           "SBER" data (Some data) w1 data w1 (OtherError "ChClientError")
           (record_call (InsertCandles "SBER" data (mon w1)) w1)).
  - done.
  - reflexivity.
  - done.
  - by vm_compute.
Defined.

(** *** The window of [fetch_ticker_data] *)

Section Window.

Variable fromisoformat : string → option datetime.
Variable filter_hours : Z.

Lemma window_loop_filter time_threshold data : ∀ filtered_data,
  all_naive fromisoformat data →
  window_loop fromisoformat time_threshold data filtered_data
  = Ok (filtered_data ++ List.filter (within fromisoformat time_threshold) data).
Proof.
  induction data as [|c rest IH]; intros acc Hn; simpl.
  - by rewrite app_nil_r.
  - assert (Hrest : all_naive fromisoformat rest).
    { intros x d Hx. apply Hn. by right. }
    unfold within at 1.
    destruct (decide (get_begin c = "")) as [|Hne]; [by apply IH|].
    destruct (fromisoformat (replace_space_T (get_begin c))) as [d|] eqn:Ep;
      [|by apply IH].
    unfold ge_naive. rewrite (Hn c d) by (done || by left).
    unfold mbind, result_bind.
    destruct (time_threshold <=? dt_us d).
    + rewrite IH by done. by rewrite <- app_assoc.
    + by apply IH.
Qed.

Lemma threshold_representable now :
  representable now filter_hours →
  timedelta_hours filter_hours = Ok (filter_hours * us_per_hour)
  ∧ sub_timedelta now (filter_hours * us_per_hour)
    = Ok (now - filter_hours * us_per_hour).
Proof.
  intros [Hd [Hlo Hhi]]. unfold timedelta_hours, sub_timedelta. split.
  - by rewrite (proj2 (Z.leb_le _ _) Hd).
  - by rewrite (proj2 (Z.leb_le _ _) Hlo), (proj2 (Z.leb_le _ _) Hhi).
Qed.

Lemma fetch_ticker_data_filter env ticker data :
  env_candles env ticker = Ok data →
  representable (env_now env) filter_hours →
  all_naive fromisoformat data →
  fetch_ticker_data fromisoformat filter_hours env ticker
  = List.filter (within fromisoformat (env_now env - filter_hours * us_per_hour)) data.
Proof.
  intros Hdata Hrep Hn. unfold fetch_ticker_data, fetch_body.
  rewrite Hdata. unfold mbind, result_bind.
  destruct data as [|c rest]; [done|].
  destruct (threshold_representable _ Hrep) as [-> ->].
  by rewrite (window_loop_filter _ _ [] Hn).
Qed.

End Window.




(** C4, as the code has it.  When the threshold [now - filter_hours] exists and
    every [begin] of the response that parses is a naive timestamp,
    [fetch_ticker_data] returns the candles of the response, in order, whose
    [begin] parses and is not older than the threshold: a candle with a
    parseable [begin] is returned if and only if [begin >= now - filter_hours];
    one exactly [filter_hours] old is returned and one a microsecond older is
    not. *)
Theorem window_is_inclusive (fromisoformat : string → option datetime)
    (filter_hours : Z) env ticker data :
  env_candles env ticker = Ok data →
  representable (env_now env) filter_hours →
  all_naive fromisoformat data →
  let time_threshold := env_now env - filter_hours * us_per_hour in
  let filtered_data := fetch_ticker_data fromisoformat filter_hours env ticker in
  filtered_data = List.filter (within fromisoformat time_threshold) data
  ∧ ∀ c d, c ∈ data → get_begin c ≠ "" →
      fromisoformat (replace_space_T (get_begin c)) = Some d →
      (c ∈ filtered_data ↔ time_threshold ≤ dt_us d)
      ∧ (dt_us d = time_threshold → c ∈ filtered_data)
      ∧ (dt_us d = time_threshold - 1 → c ∉ filtered_data).
Proof.
  intros Hdata Hrep Hn th filtered_data.
  assert (Heq : filtered_data = List.filter (within fromisoformat th) data)
    by (by apply fetch_ticker_data_filter).
  split; [done|].
  intros c d Hc Hne Hp.
  assert (Hiff : c ∈ filtered_data ↔ th ≤ dt_us d).
  { rewrite Heq, list_elem_of_In, filter_In, <- list_elem_of_In.
    unfold within. rewrite decide_False by done. rewrite Hp.
    rewrite Z.leb_le. tauto. }
  split_and!; [done| |]; rewrite Hiff; lia.
Qed.

Lemma window_is_inclusive_witness :
  let filtered_data :=
    fetch_ticker_data Iso.fromisoformat 1 Scenario.env "SBER" in
  Scenario.c0930 ∈ filtered_data
  ↔ Scenario.ten - 1 * us_per_hour ≤ 63840907800000000.
Proof.
  intros filtered_data.
  refine (proj1 (proj2 (window_is_inclusive Iso.fromisoformat 1 Scenario.env "SBER"
            [Scenario.c0930; Scenario.c0931; Scenario.c0932] _ _ _)
            Scenario.c0930 (naive 63840907800000000) _ _ _)).
  - reflexivity.
  - unfold representable. vm_compute. split; [discriminate|].
    split; discriminate.
  - intros c d Hc _. apply list_elem_of_In in Hc. simpl in Hc.
    destruct Hc as [<-|[<-|[<-|[]]]]; vm_compute; intros [= <-]; reflexivity.
  - by left.
  - done.
  - by vm_compute.
Defined.

(** The boundary of the window in a run: of the candles 08:59:59.999999, 09:00
    and 09:30 at 10:00 with [filter_hours = 1], the last two are returned. *)
Example window_boundary_run :
  fetch_ticker_data Iso.fromisoformat 1 Scenario.env_boundary "SBER"
  = [Scenario.c0900; Scenario.c0930].
Proof. by vm_compute. Qed.

(** The claim C4 as it is written fails: with one aware [begin] in the
    response the comparison raises [TypeError], the outer handler returns the
    empty list, and a candle whose [begin] parses and lies inside the window is
    not returned. *)
Lemma window_dropped_by_aware_sibling :
  let filtered_data :=
    fetch_ticker_data Iso.fromisoformat 1 Scenario.env_aware "SBER" in
  env_candles Scenario.env_aware "SBER" = Ok [Scenario.c0930; Scenario.c_aware]
  ∧ Iso.fromisoformat (replace_space_T (get_begin Scenario.c0930))
    = Some (naive 63840907800000000)
  ∧ env_now Scenario.env_aware - 1 * us_per_hour ≤ 63840907800000000
  ∧ ¬ (Scenario.c0930 ∈ filtered_data).
Proof.
  intros filtered_data.
  assert (Hnil : filtered_data = []) by (by vm_compute).
  split_and!; [reflexivity | by vm_compute | by vm_compute |].
  rewrite Hnil. apply not_elem_of_nil.
Qed.

(** *** The index snapshot *)

Lemma save_index_data_eq fromisoformat env idx key w :
  SYSTIME idx = Some key → key ≠ "" → key ∉ index_cache (mon w) →
  save_index_data fromisoformat env (Some idx) w
  = (Ok tt,
     let wc := record_call (InsertIndex idx (mon w)) w in
     let values := {| i_secid := SECID idx;
                      i_systime := parse_datetime fromisoformat (SYSTIME idx);
                      i_source := idx |} in
     if connected w then
       match env_exec_index env with
       | None => set_index_cache (λ s, s ∪ {[key]}) (add_index_row values wc)
       | Some f => if accepted f 0%nat then add_index_row values wc else wc
       end
     else wc).
Proof.
  intros Hk Hne Hnot. unfold save_index_data. rewrite Hk. simpl.
  rewrite decide_False by done.
  unfold mbind, M_bind, get. rewrite decide_False by done.
  unfold try_except, insert_index_value, mbind, M_bind, get, modify, raise, mret, M_ret.
  simpl. destruct (connected w); simpl.
  - destruct (env_exec_index env) as [f|]; simpl.
    + unfold parse_datetime. rewrite Hk.
      destruct (accepted f 0%nat); simpl; by rewrite (decide_False (P:=key ∈ _)).
    + unfold parse_datetime. by rewrite Hk.
  - by rewrite decide_False.
Qed.

Lemma save_index_data_idle fromisoformat env idx w :
  (∀ i key, idx = Some i → SYSTIME i = Some key → key = "" ∨ key ∈ index_cache (mon w)) →
  save_index_data fromisoformat env idx w = (Ok tt, w).
Proof.
  intros H. destruct idx as [i|]; [|done]. unfold save_index_data.
  destruct (SYSTIME i) as [key|] eqn:Ek; simpl; [|done].
  destruct (decide (key = "")); [done|].
  unfold mbind, M_bind, get. rewrite decide_True; [done|].
  destruct (H i key eq_refl Ek); done.
Qed.

(** C5, as the code has it.  In the candle loop the keys are marked first: the
    insert call that a cycle makes for a ticker finds every [begin] of its
    batch in the seen-set of that ticker.  In the index path the key is marked
    afterwards: at the insert call [SYSTIME] is not in [index_cache], and it is
    in it after the call exactly when the insert did not raise. *)
Theorem marking_order (fromisoformat : string → option datetime) (filter_hours : Z)
    env ticker idx w :
  (let w' := snd (process_ticker fromisoformat filter_hours env ticker w) in
   calls w' = calls w
   ∨ ∃ nd s, nd ≠ [] ∧ calls w' = calls w ++ [InsertCandles ticker nd s]
       ∧ ∀ c, c ∈ nd → get_begin c ∈ seen_of ticker s)
  ∧ (let w' := snd (save_index_data fromisoformat env idx w) in
     calls w' = calls w
     ∨ ∃ i key, idx = Some i ∧ SYSTIME i = Some key
         ∧ calls w' = calls w ++ [InsertIndex i (mon w)]
         ∧ (key ∉ index_cache (mon w))
         ∧ ((key ∈ index_cache (mon w'))
            ↔ (connected w = true ∧ env_exec_index env = None))).
Proof.
  split.
  - intros w'. subst w'.
    destruct (decide (fetch_ticker_data fromisoformat filter_hours env ticker = []))
      as [E|E].
    { left. by rewrite process_ticker_idle. }
    rewrite process_ticker_eq by done. cbn [snd].
    set (data := fetch_ticker_data _ _ _ _) in *.
    set (S0 := seen_of ticker (mon w)).
    destruct (decide (fresh S0 data = [])) as [En|En].
    { left. by rewrite En, save_ticker_nothing. }
    right. eexists _, _. split; [exact En|].
    rewrite save_ticker_calls by done. split; [reflexivity|].
    intros c Hc. unfold seen_of. simpl. rewrite lookup_insert_eq. simpl.
    rewrite elem_of_union, elem_of_begins. naive_solver.
  - intros w'. subst w'.
    destruct idx as [i|]; [|by left].
    destruct (SYSTIME i) as [key|] eqn:Ek;
      [|left; rewrite save_index_data_idle; [done|]; intros ? ? [= <-]; congruence].
    destruct (decide (key = "")) as [->|Hne];
      [left; rewrite save_index_data_idle; [done|];
       intros ? ? [= <-]; rewrite Ek; intros [= <-]; by left|].
    destruct (decide (key ∈ index_cache (mon w))) as [Hin|Hnot];
      [left; rewrite save_index_data_idle; [done|];
       intros ? ? [= <-]; rewrite Ek; intros [= <-]; by right|].
    right. exists i, key. rewrite (save_index_data_eq _ _ _ key) by done.
    cbn [snd]. split_and!; try done.
    + destruct (connected w), (env_exec_index env) as [f|]; try done.
      by destruct (accepted f 0%nat).
    + destruct (connected w), (env_exec_index env) as [f|];
        try destruct (accepted f 0%nat); simpl; set_solver.
Qed.

(** The claim C5 as it is written fails for the index snapshot: in a cycle
    that fetches a new snapshot, the insert is called while [index_cache] does
    not contain its [SYSTIME]. *)
Lemma index_key_absent_at_insert :
  calls (snd (monitor_cycle Iso.fromisoformat 1 Scenario.env_index_only Scenario.start))
  = [InsertIndex Scenario.imoex (mon Scenario.start)]
  ∧ SYSTIME Scenario.imoex = Some "2024-01-15 10:00:00"
  ∧ "2024-01-15 10:00:00" ∉ index_cache (mon Scenario.start).
Proof.
  split_and!; [by vm_compute | done |]. simpl. apply not_elem_of_empty.
Qed.

(** *** A cycle returns *)

Lemma catch_all_returns {S} (body : M S unit) (s : S) :
  fst (try_except body (λ _, mret tt) s) = Ok tt.
Proof.
  unfold try_except. by destruct (body s) as [[[]|e] s'].
Qed.

Lemma monitor_cycle_returns fromisoformat filter_hours env w :
  fst (monitor_cycle fromisoformat filter_hours env w) = Ok tt.
Proof.
  unfold monitor_cycle, get_tickers_list, for_each, mbind, M_bind.
  assert (H := catch_all_returns
    (let data := fetch_ticker_data fromisoformat filter_hours env "SBER" in
     match data with
     | [] => mret tt
     | _ => new_data ← filter_new_candlesM "SBER" data;
            save_ticker_data fromisoformat env "SBER" data (Some new_data)
     end) w).
  unfold process_ticker.
  destruct (try_except _ _ w) as [[[]|e] w1]; [|done].
  unfold mret at 1, M_ret at 1.
  apply catch_all_returns.
Qed.

End MonitorFacts.

(** ** Tag extraction *)

Module ParserFacts.

Import Parser.

#[local] Set Warnings "-clear-no-such-hyp".

Local Open Scope N_scope.

Section Unicode.

Variable uni_word : N → bool.
Variable uni_lower : str → nat → list N.

Lemma hash_is_no_word : word_char uni_word 35 = false.
Proof. reflexivity. Qed.

Lemma elem_of_emit (u w : str) : w ∈ emit u ↔ w = u ∧ u ≠ [].
Proof.
  destruct u as [|c u]; simpl.
  - split; [by intros ?%elem_of_nil|by intros [_ ?]].
  - rewrite list_elem_of_singleton. naive_solver.
Qed.

Lemma hashtag_nil w : ¬ hashtag uni_word [] w.
Proof. intros (_ & _ & pre & post & H & _). by destruct pre. Qed.

Lemma hashtag_cons_hash text w :
  hashtag uni_word (35 :: text) w
  ↔ continues uni_word [] text w ∨ hashtag uni_word text w.
Proof.
  split.
  - intros (Hne & Hw & pre & post & Heq & Hstop).
    destruct pre as [|c pre]; simplify_eq/=.
    + left. by exists w, post.
    + right. split_and!; [done..|]. by exists pre, post.
  - intros [(v & post & -> & Hv & Hstop & -> & Hne)
           |(Hne & Hw & pre & post & -> & Hstop)].
    + split_and!; [done..|]. by exists [], post.
    + split_and!; [done..|]. by exists (35 :: pre), post.
Qed.

Lemma hashtag_cons_other c text w :
  c ≠ 35 → hashtag uni_word (c :: text) w ↔ hashtag uni_word text w.
Proof.
  intros Hc. split.
  - intros (Hne & Hw & pre & post & Heq & Hstop).
    destruct pre as [|c' pre]; simplify_eq/=.
    split_and!; [done..|]. by exists pre, post.
  - intros (Hne & Hw & pre & post & -> & Hstop).
    split_and!; [done..|]. by exists (c :: pre), post.
Qed.

Lemma continues_nil u w : continues uni_word u [] w ↔ w = u ∧ u ≠ [].
Proof.
  split.
  - intros (v & post & Heq & _ & _ & -> & Hne).
    symmetry in Heq. apply app_eq_nil in Heq as [-> ->].
    rewrite (app_nil_r u) in Hne. rewrite (app_nil_r u). by split.
  - intros [-> Hne]. exists [], []. rewrite (app_nil_r u). by split_and!.
Qed.

Lemma continues_word u c text w :
  word_char uni_word c = true →
  continues uni_word u (c :: text) w ↔ continues uni_word (u ++ [c]) text w.
Proof.
  intros Hc. split.
  - intros (v & post & Heq & Hv & Hstop & -> & Hne).
    destruct v as [|c' v]; simplify_eq/=; [congruence|].
    exists v, post. rewrite <- app_assoc. split_and!; try done.
    by eapply Forall_cons_1.
  - intros (v & post & -> & Hv & Hstop & -> & Hne).
    exists (c :: v), post. rewrite <- app_assoc in *. split_and!; try done.
    by constructor.
Qed.

Lemma continues_stop u c text w :
  word_char uni_word c = false →
  continues uni_word u (c :: text) w ↔ w = u ∧ u ≠ [].
Proof.
  intros Hc. split.
  - intros (v & post & Heq & Hv & Hstop & -> & Hne).
    destruct v as [|c' v]; simplify_eq/=.
    + rewrite (app_nil_r u) in Hne. rewrite (app_nil_r u). by split.
    + apply Forall_cons_1 in Hv as [? _]. congruence.
  - intros [-> Hne]. exists [], (c :: text). rewrite (app_nil_r u). by split_and!.
Qed.

(** The scan finds the hashtags, whichever state it is in. *)
Lemma scan_spec text :
  (∀ w, w ∈ scan uni_word None text ↔ hashtag uni_word text w)
  ∧ (∀ u w, w ∈ scan uni_word (Some u) text
            ↔ continues uni_word u text w ∨ hashtag uni_word text w).
Proof.
  induction text as [|c rest [IHn IHs]].
  - split.
    + intros w. simpl. split; [by intros ?%elem_of_nil|by intros ?%hashtag_nil].
    + intros u w. simpl. rewrite elem_of_emit, continues_nil.
      split; [tauto|]. intros [?|?%hashtag_nil]; done.
  - assert (Hrest : ∀ w,
      w ∈ (if c =? 35 then scan uni_word (Some []) rest else scan uni_word None rest)
      ↔ hashtag uni_word (c :: rest) w).
    { intros w. destruct (c =? 35) eqn:E.
      - apply N.eqb_eq in E as ->. by rewrite IHs, hashtag_cons_hash.
      - apply N.eqb_neq in E. by rewrite IHn, hashtag_cons_other. }
    split.
    + intros w. simpl. apply Hrest.
    + intros u w. simpl. destruct (word_char uni_word c) eqn:E.
      * rewrite IHs, continues_word by done.
        rewrite hashtag_cons_other; [done|]. intros ->. by rewrite hash_is_no_word in E.
      * rewrite elem_of_app, elem_of_emit, Hrest, continues_stop by done. done.
Qed.

Lemma elem_of_findall text w : w ∈ findall uni_word text ↔ hashtag uni_word text w.
Proof. apply scan_spec. Qed.

Lemma extract_tags_elements text :
  extract_tags uni_word uni_lower text
  = elements (list_to_set (lower uni_lower <$> findall uni_word text) : gset str).
Proof. destruct text; [|done]. simpl. by rewrite elements_empty. Qed.

End Unicode.

(** C7. [extract_tags] returns a list without repetitions whose elements are
    exactly the lower-cased [#word] hashtags of the text;
    ["Hello #Tech and #tech!"] yields the single tag ["tech"], and
    ["no tags here"] yields no tag. *)
Theorem extract_tags_hashtags (uni_word : N → bool) (uni_lower : str → nat → list N)
    (text : str) :
  NoDup (extract_tags uni_word uni_lower text)
  ∧ (∀ t, t ∈ extract_tags uni_word uni_lower text
          ↔ ∃ w, hashtag uni_word text w ∧ t = lower uni_lower w)
  ∧ extract_tags uni_word uni_lower (codes "Hello #Tech and #tech!") = [codes "tech"]
  ∧ extract_tags uni_word uni_lower (codes "no tags here") = [].
Proof.
  split_and!.
  - rewrite extract_tags_elements. apply NoDup_elements.
  - intros t. rewrite extract_tags_elements, elem_of_elements, elem_of_list_to_set,
      list_elem_of_fmap.
    split; intros (w & H1 & H2).
    + exists w. by rewrite <- elem_of_findall.
    + exists w. by rewrite elem_of_findall.
  - rewrite extract_tags_elements.
    replace (lower uni_lower <$> findall uni_word (codes "Hello #Tech and #tech!"))
      with [codes "tech"; codes "tech"] by (by vm_compute).
    replace (list_to_set [codes "tech"; codes "tech"] : gset str)
      with ({[codes "tech"]} : gset str) by set_solver.
    apply elements_singleton.
  - rewrite extract_tags_elements.
    replace (lower uni_lower <$> findall uni_word (codes "no tags here"))
      with (@nil str) by (by vm_compute).
    apply elements_empty.
Qed.

End ParserFacts.

(** ** The news store *)

Module FeederFacts.

Import Parser Feeder.

#[local] Set Warnings "-clear-no-such-hyp".

Lemma exists_row_count m c s : exists_row m c s = false ↔ count_rows m c s = 0%nat.
Proof.
  unfold exists_row, count_rows.
  induction (news s) as [|n l IH]; simpl; [done|].
  destruct (same_key m c n); simpl; [done|]. apply IH.
Qed.

(** The effect of an [INSERT] on the number of rows with a key. *)
Lemma count_rows_insert m c m' c' d tg tx s :
  count_rows m c (snd (insert_row m' c' d tg tx s))
  = if exists_row m' c' s then count_rows m c s
    else (count_rows m c s + if bool_decide (m' = m ∧ c' = c) then 1 else 0)%nat.
Proof.
  unfold insert_row. destruct (exists_row m' c' s); [done|].
  unfold count_rows. simpl. rewrite List.filter_app, length_app. f_equal.
  simpl. unfold same_key. simpl. by case_bool_decide.
Qed.

Lemma insert_row_keeps_one m c m' c' d tg tx s :
  count_rows m c s = 1%nat →
  count_rows m c (snd (insert_row m' c' d tg tx s)) = 1%nat.
Proof.
  intros H1. rewrite count_rows_insert.
  destruct (exists_row m' c' s) eqn:E; [done|].
  case_bool_decide as Hk; [|lia].
  destruct Hk as [-> ->]. apply exists_row_count in E. lia.
Qed.

Lemma insert_row_polling m c d tg tx s :
  polling_state (snd (insert_row m c d tg tx s)) = polling_state s.
Proof. unfold insert_row. by destruct (exists_row m c s). Qed.

Lemma other_writer_eq n s :
  other_writer n s
  = (Ok tt, snd (insert_row (msg_id n) (channel n) (date n) (tags n) (text n) s)).
Proof.
  unfold other_writer, try_except.
  by destruct (insert_row _ _ _ _ _ s) as [[[]|e] s'].
Qed.

Lemma other_writers_ok l : ∀ s, fst (other_writers l s) = Ok tt.
Proof.
  induction l as [|n l IH]; intros s; simpl; [done|].
  unfold mbind, M_bind. rewrite other_writer_eq. apply IH.
Qed.

Lemma other_writers_keep_one m c l : ∀ s,
  count_rows m c s = 1%nat → count_rows m c (snd (other_writers l s)) = 1%nat.
Proof.
  induction l as [|n l IH]; intros s H1; simpl; [done|].
  unfold mbind, M_bind. rewrite other_writer_eq. apply IH.
  by apply insert_row_keeps_one.
Qed.

Lemma other_writers_polling l : ∀ s,
  polling_state (snd (other_writers l s)) = polling_state s.
Proof.
  induction l as [|n l IH]; intros s; simpl; [done|].
  unfold mbind, M_bind. rewrite other_writer_eq, IH. apply insert_row_polling.
Qed.

(** [save_news], case by case. *)
Lemma save_news_eq env m c d tg tx s :
  save_news env m c d tg tx s
  = match exists_fault env with
    | Some e => (Raise e, s)
    | None =>
        if exists_row m c s then (Ok false, s)
        else
          let s1 := snd (other_writers (interleaved env) s) in
          match commit_fault env with
          | Some IntegrityError => (Ok false, s1)
          | Some e => (Raise e, s1)
          | None =>
              if exists_row m c s1 then (Ok false, s1)
              else (Ok true, snd (insert_row m c (with_utc d) tg tx s1))
          end
    end.
Proof.
  unfold save_news, message_exists, mbind, M_bind, get, raise, mret, M_ret.
  destruct (exists_fault env) as [e|]; [done|].
  destruct (exists_row m c s); [done|].
  assert (Hok := other_writers_ok (interleaved env) s).
  destruct (other_writers (interleaved env) s) as [[[]|e] s1]; [|done]. simpl.
  unfold try_except, commit_news, raise.
  destruct (commit_fault env) as [e|]; [by destruct e|].
  unfold insert_row. by destruct (exists_row m c s1).
Qed.

Lemma save_news_keeps_one m0 c0 env m c d tg tx s :
  count_rows m0 c0 s = 1%nat →
  count_rows m0 c0 (snd (save_news env m c d tg tx s)) = 1%nat.
Proof.
  intros H1. rewrite save_news_eq.
  destruct (exists_fault env); [done|].
  destruct (exists_row m c s); [done|]. simpl.
  assert (H2 := other_writers_keep_one m0 c0 (interleaved env) s H1).
  destruct (commit_fault env) as [e|].
  - by destruct e.
  - destruct (exists_row m c _) eqn:E; [done|]. simpl.
    by apply insert_row_keeps_one.
Qed.

Lemma save_news_saved env m c d tg tx s s' :
  save_news env m c d tg tx s = (Ok true, s') → count_rows m c s' = 1%nat.
Proof.
  rewrite save_news_eq.
  destruct (exists_fault env); [done|].
  destruct (exists_row m c s); [done|]. simpl.
  destruct (commit_fault env) as [e|]; [by destruct e|].
  destruct (exists_row m c _) eqn:E; [done|].
  intros [= <-]. rewrite count_rows_insert, E.
  apply exists_row_count in E. rewrite E.
  by rewrite bool_decide_true.
Qed.

Lemma save_news_present env m c d tg tx s :
  count_rows m c s = 1%nat →
  save_news env m c d tg tx s
  = match exists_fault env with
    | Some e => (Raise e, s)
    | None => (Ok false, s)
    end.
Proof.
  intros H1. rewrite save_news_eq.
  destruct (exists_fault env); [done|].
  destruct (exists_row m c s) eqn:E; [done|].
  apply exists_row_count in E. lia.
Qed.

Lemma save_news_polling env m c d tg tx s :
  polling_state (snd (save_news env m c d tg tx s)) = polling_state s.
Proof.
  rewrite save_news_eq.
  destruct (exists_fault env); [done|].
  destruct (exists_row m c s); [done|]. simpl.
  assert (H2 := other_writers_polling (interleaved env) s).
  destruct (commit_fault env) as [e|].
  - by destruct e.
  - destruct (exists_row m c _); [done|]. simpl.
    by rewrite insert_row_polling.
Qed.

Lemma update_poll_state_news fault c t s :
  news (snd (update_poll_state fault c t s)) = news s.
Proof. unfold update_poll_state. by destruct fault. Qed.

Lemma run_ops_keep_one m c ops : ∀ s,
  count_rows m c s = 1%nat → count_rows m c (run_ops ops s) = 1%nat.
Proof.
  unfold run_ops.
  induction ops as [|o ops IH]; intros s H1; simpl; [done|].
  apply IH. destruct o as [env m' c' d tg tx|fault c' t]; simpl.
  - by apply save_news_keeps_one.
  - unfold count_rows in *. by rewrite update_poll_state_news.
Qed.

(** C3. Once a [save_news] for a pair [(msg_id, channel)] has returned [True],
    there is exactly one row with the pair, and that stays so whatever
    this process and the other writers do afterwards; a later [save_news] with
    the pair, whatever its date, tags and text, never returns [True], leaves
    exactly one row, and, the existence query being answered, returns [False]
    and leaves the store as it is. *)
Theorem save_news_is_unique env m c d tg tx s s1 :
  save_news env m c d tg tx s = (Ok true, s1) →
  count_rows m c s1 = 1%nat
  ∧ ∀ ops env' d' tg' tx',
      let s2 := run_ops ops s1 in
      count_rows m c s2 = 1%nat
      ∧ fst (save_news env' m c d' tg' tx' s2) ≠ Ok true
      ∧ count_rows m c (snd (save_news env' m c d' tg' tx' s2)) = 1%nat
      ∧ (exists_fault env' = None →
         save_news env' m c d' tg' tx' s2 = (Ok false, s2)).
Proof.
  intros Hsaved. apply save_news_saved in Hsaved as H1.
  split; [done|]. intros ops env' d' tg' tx' s2.
  assert (H2 : count_rows m c s2 = 1%nat) by (by apply run_ops_keep_one).
  rewrite (save_news_present env' m c d' tg' tx' s2 H2).
  split_and!; [done| | |].
  - by destruct (exists_fault env').
  - by destruct (exists_fault env').
  - by intros ->.
Qed.

Lemma save_news_is_unique_witness :
  let first := save_news quiet 7 "markets" Scenario.utcnow [codes "tech"]
                 (codes "Hello #Tech and #tech!") empty_store in
  let s2 := run_ops [OpPoll None "markets" Scenario.utcnow] (snd first) in
  fst first = Ok true
  ∧ save_news quiet 7 "markets" Scenario.utcnow [] (codes "edited") s2
    = (Ok false, s2).
Proof.
  intros first s2. split; [by vm_compute|].
  refine (proj2 (proj2 (proj2 (proj2 (save_news_is_unique quiet 7 "markets"
            Scenario.utcnow [codes "tech"] (codes "Hello #Tech and #tech!")
            empty_store (snd first) _)
            [OpPoll None "markets" Scenario.utcnow] quiet Scenario.utcnow []
            (codes "edited")))) _).
  - by vm_compute.
  - reflexivity.
Defined.

(** *** [poll_channel] *)

Lemma save_news_returns env m c d tg tx s :
  answers env → is_ok (fst (save_news env m c d tg tx s)) = true.
Proof.
  intros [He Hc]. rewrite save_news_eq, He.
  destruct (exists_row m c s); [done|]. simpl.
  destruct Hc as [-> | ->]; [|done].
  by destruct (exists_row m c _).
Qed.

Section WithUnicode.

Variable uni_word : N → bool.
Variable uni_lower : str → nat → list N.

Lemma save_loop_polling env channel_name messages : ∀ i counts s,
  polling_state (snd (save_loop uni_word uni_lower env channel_name messages i counts s))
  = polling_state s.
Proof.
  induction messages as [|msg rest IH]; intros i counts s; simpl; [done|].
  destruct (m_text msg) as [[|ch txt]|]; try apply IH.
  unfold mbind, M_bind.
  assert (Hp := save_news_polling (env_save env i) (m_id msg) channel_name
                  (with_utc (m_date msg))
                  (extract_tags uni_word uni_lower (ch :: txt)) (ch :: txt) s).
  destruct (save_news _ _ _ _ _ _ s) as [[saved|e] s1]; simpl in *; [|done].
  by rewrite IH.
Qed.

Lemma save_loop_returns env channel_name messages : ∀ i counts s,
  (∀ j, answers (env_save env j)) →
  is_ok (fst (save_loop uni_word uni_lower env channel_name messages i counts s)) = true.
Proof.
  induction messages as [|msg rest IH]; intros i counts s Hall; simpl; [done|].
  destruct (m_text msg) as [[|ch txt]|]; try by apply IH.
  unfold mbind, M_bind.
  assert (Hr := save_news_returns (env_save env i) (m_id msg) channel_name
                  (with_utc (m_date msg))
                  (extract_tags uni_word uni_lower (ch :: txt)) (ch :: txt) s (Hall i)).
  destruct (save_news _ _ _ _ _ _ s) as [[saved|e] s1]; simpl in *; [|done].
  by apply IH.
Qed.

(** [poll_channel] once the channel is resolved and its messages fetched. *)
Lemma poll_channel_fetched env channel_name s messages :
  env_get_entity env = None → env_get_messages env = Ok messages →
  poll_channel uni_word uni_lower env channel_name s
  = match save_loop uni_word uni_lower env channel_name messages 0%nat (0, 0) s with
    | (Ok _, s1) =>
        (Ok tt, snd (update_poll_state (env_poll_fault env) channel_name
                       (env_utcnow env) s1))
    | (Raise _, s1) => (Ok tt, s1)
    end.
Proof.
  intros He Hm. unfold poll_channel, try_except, mbind, M_bind, lift, mret, M_ret.
  rewrite He, Hm.
  destruct (save_loop _ _ _ _ _ _ _ s) as [[counts|e] s1].
  - unfold update_poll_state, raise, modify.
    destruct (env_poll_fault env) as [e|]; [by destruct e|done].
  - by destruct e.
Qed.

Lemma update_poll_state_lookup c t s :
  polling_state (snd (update_poll_state None c t s)) !! c = Some (with_utc t).
Proof.
  unfold update_poll_state, modify. simpl.
  destruct (polling_state s !! c) eqn:E.
  - rewrite lookup_alter_eq, E. done.
  - apply lookup_insert_eq.
Qed.

Lemma update_poll_state_other c c' t s :
  c' ≠ c →
  polling_state (snd (update_poll_state None c t s)) !! c' = polling_state s !! c'.
Proof.
  intros Hne. unfold update_poll_state, modify. simpl.
  destruct (polling_state s !! c) eqn:E.
  - by rewrite lookup_alter_ne.
  - by rewrite lookup_insert_ne.
Qed.

End WithUnicode.

(** C6, as the code has it.  For a channel whose messages were fetched: when
    every [save_news] of the loop returns, newly saved or not, the row of the
    channel in [polling_state] holds the current time afterwards and the rows
    of the other channels are as before, provided [update_poll_state] itself
    does not fail; every save returns when the store answers its queries; and
    when a save raises, the poll is abandoned and [polling_state] is left as it
    was. *)
Theorem cursor_follows_the_saves (uni_word : N → bool) (uni_lower : str → nat → list N)
    env channel_name s messages :
  env_get_entity env = None →
  env_get_messages env = Ok messages →
  env_poll_fault env = None →
  let loop := save_loop uni_word uni_lower env channel_name messages 0%nat (0, 0) s in
  let s' := snd (poll_channel uni_word uni_lower env channel_name s) in
  (is_ok (fst loop) = true →
     polling_state s' !! channel_name = Some (with_utc (env_utcnow env))
     ∧ ∀ c', c' ≠ channel_name → polling_state s' !! c' = polling_state s !! c')
  ∧ ((∀ i, answers (env_save env i)) → is_ok (fst loop) = true)
  ∧ (is_ok (fst loop) = false → polling_state s' = polling_state s).
Proof.
  intros He Hm Hp loop s'. subst s'.
  rewrite (poll_channel_fetched _ _ _ _ _ _ He Hm). fold loop.
  assert (Hpol := save_loop_polling uni_word uni_lower env channel_name messages
                    0%nat (0, 0) s). fold loop in Hpol.
  split_and!.
  - destruct loop as [[counts|e] s1]; [intros _|done]. simpl in *.
    rewrite Hp. split.
    + apply update_poll_state_lookup.
    + intros c' Hne. rewrite update_poll_state_other by done. by rewrite Hpol.
  - intros Hall. by apply save_loop_returns.
  - destruct loop as [[counts|e] s1]; [done|]. by intros _.
Qed.

Lemma cursor_follows_the_saves_witness :
  let s' := snd (poll_channel Scenario.no_word Scenario.no_lower Scenario.poll_ok
                   "markets" empty_store) in
  polling_state s' !! "markets" = Some Scenario.utcnow.
Proof.
  intros s'.
  refine (proj1 (proj1 (cursor_follows_the_saves Scenario.no_word Scenario.no_lower
            Scenario.poll_ok "markets" empty_store [Scenario.hello] _ _ _) _)).
  - reflexivity.
  - reflexivity.
  - reflexivity.
  - by vm_compute.
Defined.

(** The claim C6 as it is written fails: the messages of the channel are
    fetched, the [save_news] of a message raises, and [poll_channel] returns
    without a row for the channel in [polling_state]. *)
Lemma cursor_not_updated_after_failed_save :
  let s' := snd (poll_channel Scenario.no_word Scenario.no_lower
                   Scenario.poll_save_fails "markets" empty_store) in
  env_get_entity Scenario.poll_save_fails = None
  ∧ env_get_messages Scenario.poll_save_fails = Ok [Scenario.hello]
  ∧ fst (save_news (env_save Scenario.poll_save_fails 0%nat) 7 "markets"
           (m_date Scenario.hello) [codes "tech"] (codes "Hello #Tech and #tech!")
           empty_store)
    = Raise (OtherError "OperationalError")
  ∧ polling_state s' !! "markets" = None.
Proof. by vm_compute. Qed.

Lemma poll_channel_returns uni_word uni_lower env channel_name s :
  fst (poll_channel uni_word uni_lower env channel_name s) = Ok tt.
Proof.
  unfold poll_channel, try_except.
  match goal with |- context [match ?b s with _ => _ end] => destruct (b s) as [[[]|e] s1] end;
    [done|by destruct e].
Qed.

End FeederFacts.

(** ** Both cycles return *)

Module CycleFacts.

(** C8. Whatever the MOEX client, Telegram and the two stores answer, and
    whichever exception (any subclass of [Exception]) any of them raises,
    [monitor_cycle] and [poll_channel] return normally: no exception reaches
    the caller. *)
Theorem cycles_never_raise (fromisoformat : string → option datetime)
    (filter_hours : Z) (env : cycle_env) (w : world)
    (uni_word : N → bool) (uni_lower : Parser.str → nat → list N)
    (penv : Feeder.poll_env) (channel_name : string) (s : Feeder.store) :
  fst (Monitor.monitor_cycle fromisoformat filter_hours env w) = Ok tt
  ∧ fst (Feeder.poll_channel uni_word uni_lower penv channel_name s) = Ok tt.
Proof.
  split.
  - apply MonitorFacts.monitor_cycle_returns.
  - apply FeederFacts.poll_channel_returns.
Qed.

End CycleFacts.

(** * Further properties of the market monitor *)

Module MonitorMore.

Import Monitor Spec Spec2 MonitorFacts.

#[local] Set Warnings "-clear-no-such-hyp".

(** ** Selection *)

Lemma fresh_first candles : ∀ S c,
  c ∈ fresh S candles →
  ∃ pre post, candles = pre ++ c :: post ∧ ∀ x, x ∈ pre → get_begin x ≠ get_begin c.
Proof.
  induction candles as [|x rest IH]; intros S c; simpl; [by intros ?%elem_of_nil|].
  destruct (decide (get_begin x = "")) as [Hx|Hx].
  { intros Hc. destruct (IH _ _ Hc) as (pre & post & -> & Hpre).
    exists (x :: pre), post. split; [done|].
    intros y [->|Hy]%elem_of_cons; [|by apply Hpre].
    apply fresh_new in Hc as [Hc _]. congruence. }
  destruct (decide (get_begin x ∈ S)) as [Hin|Hin].
  { intros Hc. destruct (IH _ _ Hc) as (pre & post & -> & Hpre).
    exists (x :: pre), post. split; [done|].
    intros y [->|Hy]%elem_of_cons; [|by apply Hpre].
    apply fresh_new in Hc as [_ Hc]. congruence. }
  intros [->|Hc]%elem_of_cons.
  - exists [], rest. split; [done|]. by intros y ?%elem_of_nil.
  - destruct (IH _ _ Hc) as (pre & post & -> & Hpre).
    exists (x :: pre), post. split; [done|].
    intros y [->|Hy]%elem_of_cons; [|by apply Hpre].
    apply fresh_new in Hc as [_ Hc]. set_solver.
Qed.

Lemma begins_fresh candles : ∀ S b,
  b ∈ begins (fresh S candles) ↔ b ≠ "" ∧ b ∈ begins candles ∧ b ∉ S.
Proof.
  intros S b. split.
  - intros (c & Hc & <-)%elem_of_begins.
    destruct (fresh_new _ _ _ Hc) as [? ?]. split_and!; [done| |done].
    apply elem_of_begins. exists c. split; [|done].
    by apply (sublist_subseteq _ _ (fresh_sublist candles S)).
  - intros (Hne & (c & Hc & <-)%elem_of_begins & Hnot).
    specialize (fresh_covers _ S c Hc Hne). set_solver.
Qed.

(** [filter_new_candles] selects every new key once, by its first candle: a
    [begin] is among those of the result exactly when it is not empty, occurs
    in the input and was not seen before; and no candle before a selected one
    has the same [begin]. *)
Theorem filter_new_candles_first_of_each_key ticker candles
    (cache : gmap string (gset string)) :
  let S := default ∅ (cache !! ticker) in
  let new_candles := fst (filter_new_candles ticker candles cache) in
  (∀ b, b ∈ begins new_candles ↔ b ≠ "" ∧ b ∈ begins candles ∧ b ∉ S)
  ∧ (∀ c, c ∈ new_candles →
       ∃ pre post, candles = pre ++ c :: post
                   ∧ ∀ x, x ∈ pre → get_begin x ≠ get_begin c).
Proof.
  intros S new_candles. subst new_candles.
  rewrite filter_new_candles_eq. fold S. simpl. split.
  - apply begins_fresh.
  - apply fresh_first.
Qed.

Lemma fresh_app l1 l2 : ∀ S,
  fresh S (l1 ++ l2) = fresh S l1 ++ fresh (S ∪ begins (fresh S l1)) l2.
Proof.
  induction l1 as [|x rest IH]; intros S; simpl.
  - f_equal. unfold begins. simpl. set_solver.
  - repeat case_decide; try apply IH.
    simpl. f_equal. rewrite IH. f_equal. f_equal.
    unfold begins. simpl. set_solver.
Qed.

Lemma begins_app l1 l2 : begins (l1 ++ l2) = begins l1 ∪ begins l2.
Proof. unfold begins. rewrite fmap_app. set_solver. Qed.

(** Filtering a response in two parts, one after the other, selects the same
    candles and leaves the same cache as filtering it whole. *)
Theorem filter_new_candles_app ticker l1 l2 (cache : gmap string (gset string)) :
  filter_new_candles ticker (l1 ++ l2) cache
  = (fst (filter_new_candles ticker l1 cache)
     ++ fst (filter_new_candles ticker l2 (snd (filter_new_candles ticker l1 cache))),
     snd (filter_new_candles ticker l2 (snd (filter_new_candles ticker l1 cache)))).
Proof.
  rewrite !filter_new_candles_eq. simpl.
  set (S := default ∅ (cache !! ticker)).
  rewrite lookup_insert_eq. simpl.
  rewrite fresh_app. f_equal.
  unfold ensure_ticker at 2. rewrite lookup_insert_eq.
  rewrite insert_insert_eq. f_equal.
  rewrite begins_app. set_solver.
Qed.

Lemma rollback_lookup_Some ticker new_data : ∀ cache S,
  cache !! ticker = Some S →
  rollback ticker new_data cache !! ticker = Some (S ∖ begins new_data).
Proof.
  unfold rollback.
  induction new_data as [|c rest IH]; intros cache S HS; simpl.
  - rewrite HS. f_equal. unfold begins. simpl. set_solver.
  - rewrite (IH _ (S ∖ {[get_begin c]})).
    + f_equal. unfold begins. simpl. set_solver.
    + unfold discard_begin. rewrite HS. simpl. case_decide as Hin.
      * rewrite lookup_insert_eq. by rewrite (lookup_total_correct _ _ _ HS).
      * rewrite HS. f_equal. set_solver.
Qed.

(** The rollback undoes the marking: after [filter_new_candles] and the
    rollback of what it selected, every ticker has the seen-set it had, and a
    cache that had an entry for the ticker is the same cache. *)
Theorem rollback_undoes_filter ticker candles (cache : gmap string (gset string)) :
  let new_candles := fst (filter_new_candles ticker candles cache) in
  let cache' := rollback ticker new_candles (snd (filter_new_candles ticker candles cache)) in
  default ∅ (cache' !! ticker) = default ∅ (cache !! ticker)
  ∧ (∀ t', t' ≠ ticker → cache' !! t' = cache !! t')
  ∧ (is_Some (cache !! ticker) → cache' = cache).
Proof.
  intros new_candles cache'. subst new_candles cache'.
  rewrite filter_new_candles_eq. simpl.
  set (S := default ∅ (cache !! ticker)).
  set (nd := fresh S candles).
  assert (Hdisj : (S ∪ begins nd) ∖ begins nd = S).
  { apply set_eq. intros b. rewrite elem_of_difference, elem_of_union.
    unfold nd. rewrite begins_fresh. tauto. }
  assert (Hl : rollback ticker nd (<[ticker:=S ∪ begins nd]> (ensure_ticker ticker cache))
               !! ticker = Some S).
  { rewrite (rollback_lookup_Some _ _ _ (S ∪ begins nd)) by apply lookup_insert_eq.
    by rewrite Hdisj. }
  assert (Ho : ∀ t', t' ≠ ticker →
    rollback ticker nd (<[ticker:=S ∪ begins nd]> (ensure_ticker ticker cache)) !! t'
    = cache !! t').
  { intros t' Hne. rewrite rollback_other by done.
    rewrite lookup_insert_ne by done. by apply ensure_ticker_other. }
  split_and!.
  - by rewrite Hl.
  - done.
  - intros [S' HS']. apply map_eq. intros t'.
    destruct (decide (t' = ticker)) as [->|Hne]; [|by apply Ho].
    rewrite Hl, HS'. unfold S. by rewrite HS'.
Qed.

(** ** The window *)

Section Window.

Variable fromisoformat : string → option datetime.
Variable filter_hours : Z.

Lemma window_loop_sound time_threshold data : ∀ filtered_data out,
  window_loop fromisoformat time_threshold data filtered_data = Ok out →
  ∃ more, out = filtered_data ++ more ∧ sublist more data
          ∧ ∀ c, c ∈ more → kept fromisoformat time_threshold c.
Proof.
  induction data as [|c rest IH]; intros acc out; simpl.
  - intros [= <-]. exists []. rewrite app_nil_r. split_and!; [done|constructor|].
    by intros ? ?%elem_of_nil.
  - assert (Hskip : window_loop fromisoformat time_threshold rest acc = Ok out →
      ∃ more, out = acc ++ more ∧ sublist more (c :: rest)
              ∧ ∀ x, x ∈ more → kept fromisoformat time_threshold x).
    { intros H. destruct (IH _ _ H) as (more & -> & Hsub & Hk).
      exists more. split_and!; [done|by constructor|done]. }
    destruct (decide (get_begin c = "")) as [|Hne]; [done|].
    destruct (fromisoformat (replace_space_T (get_begin c))) as [d|] eqn:Ep; [|done].
    unfold ge_naive, mbind, result_bind.
    destruct (dt_tz d) eqn:Etz; [done|].
    destruct (time_threshold <=? dt_us d) eqn:Ele; [|done].
    intros H. destruct (IH _ _ H) as (more & -> & Hsub & Hk).
    exists (c :: more). rewrite <- app_assoc. split_and!; [done|by constructor|].
    intros x [->|Hx]%elem_of_cons; [|by apply Hk].
    split; [done|]. exists d. split_and!; [done..|]. by apply Z.leb_le.
Qed.

Lemma threshold_exists now delta time_threshold :
  timedelta_hours filter_hours = Ok delta →
  sub_timedelta now delta = Ok time_threshold →
  representable now filter_hours
  ∧ time_threshold = now - filter_hours * us_per_hour.
Proof.
  unfold timedelta_hours, sub_timedelta, representable.
  destruct (Z.abs _ <=? _) eqn:E1; [|done]. intros [= <-].
  destruct (0 <=? _) eqn:E2; [|done]. destruct (_ <=? max_us) eqn:E3; [|done].
  intros [= <-]. apply Z.leb_le in E1, E2, E3. done.
Qed.

End Window.

Lemma fetch_sound (fromisoformat : string → option datetime)
    (filter_hours : Z) env ticker :
  let filtered_data := fetch_ticker_data fromisoformat filter_hours env ticker in
  (∀ c, c ∈ filtered_data →
     representable (env_now env) filter_hours
     ∧ kept fromisoformat (env_now env - filter_hours * us_per_hour) c)
  ∧ (∀ data, env_candles env ticker = Ok data → sublist filtered_data data)
  ∧ (∀ e, env_candles env ticker = Raise e → filtered_data = []).
Proof.
  intros out. subst out. unfold fetch_ticker_data, fetch_body, mbind, result_bind.
  destruct (env_candles env ticker) as [data|e]; cycle 1.
  { split_and!; [by intros ? ?%elem_of_nil|done|done]. }
  destruct data as [|c0 data'].
  { split_and!; [by intros ? ?%elem_of_nil| |done]. intros ? [= <-]. constructor. }
  destruct (timedelta_hours filter_hours) as [delta|e1] eqn:E1; cycle 1.
  { split_and!; [by intros ? ?%elem_of_nil| |done]. intros. apply sublist_nil_l. }
  destruct (sub_timedelta (env_now env) delta) as [th|e2] eqn:E2; cycle 1.
  { split_and!; [by intros ? ?%elem_of_nil| |done]. intros. apply sublist_nil_l. }
  destruct (threshold_exists _ _ _ _ E1 E2) as [Hrep ->].
  destruct (window_loop _ _ _ _) as [out|e3] eqn:E3; cycle 1.
  { split_and!; [by intros ? ?%elem_of_nil| |done]. intros. apply sublist_nil_l. }
  destruct (window_loop_sound _ _ _ _ _ E3) as (more & -> & Hsub & Hk).
  simpl. split_and!; [|by intros ? [= <-]|done].
  intros c Hc. split; [done|by apply Hk].
Qed.

(** Whatever the source answers, [fetch_ticker_data] returns candles of the
    answer, in their order, and only candles inside the window: each has a
    [begin] that parses to a naive timestamp not older than
    [now - filter_hours], a threshold that then exists.  When the source
    raises, nothing is returned. *)
Theorem fetch_ticker_data_within_window (fromisoformat : string → option datetime)
    (filter_hours : Z) env ticker :
  let filtered_data := fetch_ticker_data fromisoformat filter_hours env ticker in
  (∀ c, c ∈ filtered_data →
     representable (env_now env) filter_hours
     ∧ kept fromisoformat (env_now env - filter_hours * us_per_hour) c)
  ∧ (∀ data, env_candles env ticker = Ok data → sublist filtered_data data)
  ∧ (∀ e, env_candles env ticker = Raise e → filtered_data = []).
Proof. apply fetch_sound. Qed.

(** ** The batched insert *)

Section Insert.

Variable fromisoformat : string → option datetime.

Lemma build_values_rows ticker candles : ∀ values_list out,
  build_values fromisoformat ticker candles values_list = Ok out →
  ∃ rows, out = values_list ++ rows
          ∧ sublist (r_candle <$> rows) candles
          ∧ Forall (row_of fromisoformat ticker) rows
          ∧ ((∀ c, c ∈ candles → get_begin c ≠ ""
                   ∧ is_Some (fromisoformat (replace_space_T (get_begin c)))) →
             r_candle <$> rows = candles).
Proof.
  induction candles as [|c rest IH]; intros acc out; simpl.
  - intros [= <-]. exists []. rewrite app_nil_r.
    split_and!; [done|constructor|constructor|done].
  - assert (Hskip : (get_begin c = ""
                     ∨ fromisoformat (replace_space_T (get_begin c)) = None) →
      build_values fromisoformat ticker rest acc = Ok out →
      ∃ rows, out = acc ++ rows ∧ sublist (r_candle <$> rows) (c :: rest)
              ∧ Forall (row_of fromisoformat ticker) rows
              ∧ ((∀ x, x ∈ c :: rest → get_begin x ≠ ""
                       ∧ is_Some (fromisoformat (replace_space_T (get_begin x)))) →
                 r_candle <$> rows = c :: rest)).
    { intros Hbad H. destruct (IH _ _ H) as (rows & -> & Hsub & Hall & _).
      exists rows. split_and!; [done|by constructor|done|].
      intros Hgood. destruct (Hgood c) as [Hne [d Hd]]; [by left|].
      destruct Hbad; congruence. }
    unfold get_begin in Hskip. unfold get_begin at 1 2 in IH.
    destruct (c_begin c) as [begin_str|] eqn:Eb; simpl in Hskip;
      [|apply Hskip; by left].
    destruct (decide (begin_str = "")) as [|Hne]; [apply Hskip; by left|].
    destruct (fromisoformat (replace_space_T begin_str)) as [begin_dt|] eqn:Ep;
      [|apply Hskip; by right].
    unfold mbind, result_bind.
    destruct (match c_end c with
              | Some end_str => _
              | None => _
              end) as [end_dt|e]; [|done].
    intros H. destruct (IH _ _ H) as (rows & -> & Hsub & Hall & Hfull).
    eexists (_ :: rows). rewrite <- app_assoc. split_and!; [done| | |].
    + simpl. by constructor.
    + constructor; [|done]. unfold row_of, get_begin. simpl. by rewrite Eb.
    + intros Hgood. simpl. f_equal. apply Hfull.
      intros x Hx. apply Hgood. by right.
Qed.

Lemma build_values_bad_end ticker candles : ∀ values_list c,
  c ∈ candles → bad_end fromisoformat c →
  build_values fromisoformat ticker candles values_list = Raise ValueError.
Proof.
  induction candles as [|x rest IH]; intros acc c; [by intros ?%elem_of_nil|].
  intros Hin Hbad. simpl.
  apply elem_of_cons in Hin as [->|Hin].
  - destruct Hbad as (Hb & [d Hd] & end_str & He & Hne & Hp).
    unfold get_begin in Hb, Hd.
    destruct (c_begin x) as [begin_str|]; simpl in *; [|done].
    rewrite decide_False by done. rewrite Hd, He.
    rewrite decide_False by done. by rewrite Hp.
  - assert (Hrest : ∀ acc', build_values fromisoformat ticker rest acc'
                            = Raise ValueError).
    { intros acc'. by apply (IH acc' c). }
    destruct (c_begin x) as [begin_str|]; [|done].
    destruct (decide (begin_str = "")); [done|].
    destruct (fromisoformat (replace_space_T begin_str)); [|done].
    unfold mbind, result_bind.
    destruct (match c_end x with
              | Some end_str => _
              | None => _
              end) as [end_dt|e] eqn:E; [done|].
    destruct (c_end x) as [end_str|]; [|done].
    destruct (decide (end_str = "")); [done|].
    destruct (fromisoformat (replace_space_T end_str)); congruence.
Qed.

(** [insert_ticker_candles_batch] in closed form. *)
Lemma insert_batch_eq exec ticker new_data w :
  insert_ticker_candles_batch fromisoformat exec ticker new_data w
  = let wc := record_call (InsertCandles ticker new_data (mon w)) w in
    if connected w then
      match new_data with
      | [] => (Ok tt, wc)
      | _ =>
          match build_values fromisoformat ticker new_data [] with
          | Raise e => (Raise e, wc)
          | Ok [] => (Ok tt, wc)
          | Ok values_list =>
              match exec with
              | None => (Ok tt, add_candle_rows values_list wc)
              | Some f =>
                  (Raise (raised f),
                   add_candle_rows (accepted_rows f values_list) wc)
              end
          end
      end
    else (Raise RuntimeError, wc).
Proof.
  unfold insert_ticker_candles_batch, mbind, M_bind, get, modify, raise, lift, mret, M_ret.
  simpl. destruct (connected w); simpl; [|done].
  destruct new_data as [|c l]; [done|].
  destruct (build_values _ _ _ _) as [[|r rows]|e]; simpl; try done.
  by destruct exec.
Qed.

End Insert.

(** ** One ticker in one cycle *)

Section Cycle.

Variable fromisoformat : string → option datetime.
Variable filter_hours : Z.

Lemma begins_fresh_disjoint S data : (S ∪ begins (fresh S data)) ∖ begins (fresh S data) = S.
Proof.
  apply set_eq. intros b. rewrite elem_of_difference, elem_of_union, begins_fresh. tauto.
Qed.

(** What [process_ticker] does to the world, whatever the outside world
    answers: either the insert returned, or there was nothing to insert, and
    the rows stored and the keys marked are those of the new candles; or the
    seen-set is as it was, and the rows stored are what the store had accepted
    of an insert that it failed. *)
Lemma process_ticker_effect env ticker w :
  let w' := snd (process_ticker fromisoformat filter_hours env ticker w) in
  let S0 := seen_of ticker (mon w) in
  let new_data := fresh S0 (fetch_ticker_data fromisoformat filter_hours env ticker) in
  ∃ rows,
    ticker_candles w' = ticker_candles w ++ rows
    ∧ Forall (row_of fromisoformat ticker) rows
    ∧ sublist (r_candle <$> rows) new_data
    ∧ ((r_candle <$> rows = new_data
        ∧ seen_of ticker (mon w') = S0 ∪ begins new_data)
       ∨ (seen_of ticker (mon w') = S0
          ∧ (atomic (env_exec_candles env ticker) → rows = [])))
    ∧ (∀ t', t' ≠ ticker → cache (mon w') !! t' = cache (mon w) !! t')
    ∧ index_cache (mon w') = index_cache (mon w)
    ∧ index_values w' = index_values w
    ∧ connected w' = connected w.
Proof.
  intros w' S0 nd. subst w'.
  set (data := fetch_ticker_data fromisoformat filter_hours env ticker) in *.
  assert (Hnone : ∀ S : gset string, S ∪ begins [] = S).
  { intros S. unfold begins. simpl. apply (right_id_L ∅ (∪)). }
  destruct (decide (data = [])) as [Hd|Hd].
  { rewrite process_ticker_idle by done. exists [].
    rewrite app_nil_r. unfold nd. rewrite Hd. simpl fresh. rewrite Hnone.
    split_and!; try done. by left. }
  rewrite process_ticker_eq by done. fold data S0 nd. cbn [snd].
  set (w1 := set_cache _ w).
  assert (H1 : seen_of ticker (mon w1) = S0 ∪ begins nd).
  { unfold seen_of, w1. simpl. by rewrite lookup_insert_eq. }
  assert (H1o : ∀ t', t' ≠ ticker → cache (mon w1) !! t' = cache (mon w) !! t').
  { intros t' Hne. unfold w1. simpl. rewrite lookup_insert_ne by done.
    by apply ensure_ticker_other. }
  destruct (decide (nd = [])) as [Hn|Hn].
  { rewrite Hn, save_ticker_nothing. cbn [snd]. exists [].
    rewrite app_nil_r, H1, Hn. split_and!; try done. by left. }
  rewrite save_ticker_step by done. rewrite insert_batch_eq. cbv zeta.
  set (wc := record_call _ w1).
  assert (Hfail : ∀ kept,
    Forall (row_of fromisoformat ticker) kept →
    sublist (r_candle <$> kept) nd →
    (atomic (env_exec_candles env ticker) → kept = []) →
    let w2 := set_cache (rollback ticker nd) (add_candle_rows kept wc) in
    ∃ rows,
      ticker_candles w2 = ticker_candles w ++ rows
      ∧ Forall (row_of fromisoformat ticker) rows
      ∧ sublist (r_candle <$> rows) nd
      ∧ ((r_candle <$> rows = nd ∧ seen_of ticker (mon w2) = S0 ∪ begins nd)
         ∨ (seen_of ticker (mon w2) = S0
            ∧ (atomic (env_exec_candles env ticker) → rows = [])))
      ∧ (∀ t', t' ≠ ticker → cache (mon w2) !! t' = cache (mon w) !! t')
      ∧ index_cache (mon w2) = index_cache (mon w)
      ∧ index_values w2 = index_values w
      ∧ connected w2 = connected w).
  { intros kept Hall Hsub Hat w2. exists kept.
    split_and!; try done.
    - right. split; [|done].
      assert (Hr : seen_of ticker (mon w2) = seen_of ticker (mon w1) ∖ begins nd)
        by (unfold seen_of; simpl; apply rollback_lookup).
      rewrite Hr, H1. unfold nd. apply begins_fresh_disjoint.
    - intros t' Hne. simpl. rewrite rollback_other by done. by apply H1o. }
  assert (Hnothing : ∃ rows,
    ticker_candles (set_cache (rollback ticker nd) wc) = ticker_candles w ++ rows
    ∧ Forall (row_of fromisoformat ticker) rows
    ∧ sublist (r_candle <$> rows) nd
    ∧ ((r_candle <$> rows = nd
        ∧ seen_of ticker (mon (set_cache (rollback ticker nd) wc)) = S0 ∪ begins nd)
       ∨ (seen_of ticker (mon (set_cache (rollback ticker nd) wc)) = S0
          ∧ (atomic (env_exec_candles env ticker) → rows = [])))
    ∧ (∀ t', t' ≠ ticker →
         cache (mon (set_cache (rollback ticker nd) wc)) !! t' = cache (mon w) !! t')
    ∧ index_cache (mon (set_cache (rollback ticker nd) wc)) = index_cache (mon w)
    ∧ index_values (set_cache (rollback ticker nd) wc) = index_values w
    ∧ connected (set_cache (rollback ticker nd) wc) = connected w).
  { rewrite <- (add_candle_rows_nil wc).
    apply (Hfail []); [constructor|apply sublist_nil_l|done]. }
  destruct (connected w1) eqn:Ec; [|exact Hnothing].
  destruct nd as [|n0 nd'] eqn:End; [done|]. rewrite <- End in *.
  destruct (build_values fromisoformat ticker nd []) as [vl|e] eqn:Eb; [|exact Hnothing].
  destruct (build_values_rows _ _ _ _ _ Eb) as (rows & -> & Hsub & Hrows & Hfull).
  simpl in *.
  assert (Hall : r_candle <$> rows = nd).
  { apply Hfull. intros c Hc.
    assert (Hin : c ∈ data)
      by (by apply (sublist_subseteq _ _ (fresh_sublist data S0))).
    destruct (fetch_sound fromisoformat filter_hours env ticker) as (Hk & _ & _).
    destruct (Hk c Hin) as (_ & Hne & d & Hp & _). split; [done|by exists d]. }
  destruct rows as [|r0 rows']; [by rewrite <- Hall in Hn|].
  destruct (env_exec_candles env ticker) as [f|] eqn:Ef.
  - apply Hfail.
    + apply Forall_forall. intros r Hr.
      apply (proj1 (Forall_forall _ _) Hrows).
      by apply (sublist_subseteq _ _ (accepted_from_sublist (accepted f) (r0 :: rows') 0)).
    + unfold accepted_rows. rewrite accepted_from_fmap, Hall.
      apply accepted_from_sublist.
    + intros Hat. apply accepted_from_none. by apply (Hat f).
  - exists (r0 :: rows'). rewrite Hall. split_and!; try done. by left.
Qed.

End Cycle.


(** A candle of the batch whose [end] is a non-empty string that does not
    parse makes the insert raise before the store is asked: whatever the store
    would answer, [save_ticker_data] stores no row of the batch and takes the
    [begin] keys of the whole batch out of the seen-set. *)
Theorem bad_end_fails_the_batch (fromisoformat : string → option datetime)
    env env' ticker data new_data c w :
  data ≠ [] → c ∈ new_data → bad_end fromisoformat c →
  let w2 := snd (save_ticker_data fromisoformat env ticker data (Some new_data) w) in
  ticker_candles w2 = ticker_candles w
  ∧ seen_of ticker (mon w2) = seen_of ticker (mon w) ∖ begins new_data
  ∧ save_ticker_data fromisoformat env' ticker data (Some new_data) w
    = save_ticker_data fromisoformat env ticker data (Some new_data) w.
Proof.
  intros Hd Hc Hbad w2. subst w2.
  assert (Hn : new_data ≠ []) by (intros ->; by apply elem_of_nil in Hc).
  rewrite !save_ticker_step by done. rewrite !insert_batch_eq. cbv zeta.
  assert (Hraise := build_values_bad_end fromisoformat ticker new_data [] c Hc Hbad).
  assert (Hseen : ∀ wc, mon wc = mon w →
    seen_of ticker (mon (set_cache (rollback ticker new_data) wc))
    = seen_of ticker (mon w) ∖ begins new_data).
  { intros wc Hm. unfold seen_of. simpl. rewrite Hm. apply rollback_lookup. }
  destruct (connected w).
  - destruct new_data as [|n0 nd']; [done|]. rewrite Hraise.
    split_and!; [done|by apply Hseen|done].
  - split_and!; [done|by apply Hseen|done].
Qed.

Lemma bad_end_fails_the_batch_witness :
  let data := [Scenario.c0930; Scenario2.c_bad_end] in
  let w2 := snd (save_ticker_data Iso.fromisoformat Scenario.env "SBER" data
                   (Some data) Scenario.start) in
  ticker_candles w2 = []
  ∧ seen_of "SBER" (mon w2) = seen_of "SBER" (mon Scenario.start) ∖ begins data.
Proof.
  intros data w2.
  destruct (bad_end_fails_the_batch Iso.fromisoformat Scenario.env Scenario.env
              "SBER" data data Scenario2.c_bad_end Scenario.start)
    as (Hrows & Hseen & _).
  - done.
  - by right; left.
  - split_and!; [done|eexists; vm_compute; reflexivity|].
    exists "soon". split_and!; [done|done|by vm_compute].
  - split; [exact Hrows|exact Hseen].
Defined.

(** ** Whole cycles and the loop *)

Section Cycles.

Variable fromisoformat : string → option datetime.
Variable filter_hours : Z.

Lemma snd_catch_all {S} (body : M S unit) (s : S) :
  snd (try_except body (λ _, mret tt) s) = snd (body s).
Proof. unfold try_except. by destruct (body s) as [[[]|e] s']. Qed.

Lemma process_ticker_ok env ticker w :
  fst (process_ticker fromisoformat filter_hours env ticker w) = Ok tt.
Proof. unfold process_ticker. apply catch_all_returns. Qed.

Lemma monitor_cycle_eq env w :
  monitor_cycle fromisoformat filter_hours env w
  = (Ok tt,
     snd (save_index_data fromisoformat env (fetch_index_data env)
            (snd (process_ticker fromisoformat filter_hours env "SBER" w)))).
Proof.
  unfold monitor_cycle, get_tickers_list, for_each, mbind, M_bind.
  assert (Hok := process_ticker_ok env "SBER" w).
  destruct (process_ticker _ _ _ _ w) as [[[]|e] w1]; [|done].
  unfold mret at 1, M_ret at 1. cbn [snd].
  assert (H1 := catch_all_returns (save_index_data fromisoformat env (fetch_index_data env)) w1).
  assert (H2 := snd_catch_all (save_index_data fromisoformat env (fetch_index_data env)) w1).
  destruct (try_except _ _ w1) as [r w2]. simpl in *. by subst.
Qed.

(** What [save_index_data] does to the world. *)
Lemma save_index_data_effect env idx w :
  let w' := snd (save_index_data fromisoformat env idx w) in
  ticker_candles w' = ticker_candles w
  ∧ cache (mon w') = cache (mon w)
  ∧ connected w' = connected w
  ∧ ∃ irows, index_values w' = index_values w ++ irows
             ∧ (length irows ≤ 1)%nat
             ∧ ∀ r, r ∈ irows → idx = Some (i_source r)
                                ∧ i_secid r = SECID (i_source r).
Proof.
  intros w'. subst w'.
  assert (Hidle : save_index_data fromisoformat env idx w = (Ok tt, w) →
    ticker_candles (snd (save_index_data fromisoformat env idx w)) = ticker_candles w
    ∧ cache (mon (snd (save_index_data fromisoformat env idx w))) = cache (mon w)
    ∧ connected (snd (save_index_data fromisoformat env idx w)) = connected w
    ∧ ∃ irows, index_values (snd (save_index_data fromisoformat env idx w))
               = index_values w ++ irows
               ∧ (length irows ≤ 1)%nat
               ∧ ∀ r, r ∈ irows → idx = Some (i_source r)
                                  ∧ i_secid r = SECID (i_source r)).
  { intros ->. split_and!; try done. exists []. rewrite app_nil_r.
    split_and!; [done|simpl; lia|by intros ? ?%elem_of_nil]. }
  destruct idx as [i|]; [|by apply Hidle].
  destruct (SYSTIME i) as [key|] eqn:Ek;
    [|apply Hidle, save_index_data_idle; intros ? ? [= <-]; congruence].
  destruct (decide (key = "")) as [->|Hne];
    [apply Hidle, save_index_data_idle; intros ? ? [= <-]; rewrite Ek;
     intros [= <-]; by left|].
  destruct (decide (key ∈ index_cache (mon w))) as [Hin|Hnot];
    [apply Hidle, save_index_data_idle; intros ? ? [= <-]; rewrite Ek;
     intros [= <-]; by right|].
  rewrite (save_index_data_eq _ _ _ key) by done. cbn [snd]. cbv zeta.
  destruct (connected w) eqn:Ec;
    [destruct (env_exec_index env) as [f|]; [destruct (accepted f 0%nat)|]|]; simpl;
    (split_and!; [done|done|done|]).
  - eexists [_]. split_and!; [done|simpl; lia|].
    by intros r ->%list_elem_of_singleton.
  - exists []. rewrite app_nil_r.
    split_and!; [done|simpl; lia|by intros ? ?%elem_of_nil].
  - eexists [_]. split_and!; [done|simpl; lia|].
    by intros r ->%list_elem_of_singleton.
  - exists []. rewrite app_nil_r.
    split_and!; [done|simpl; lia|by intros ? ?%elem_of_nil].
Qed.

Lemma run_iteration_eq env after w :
  Loop.run_iteration fromisoformat filter_hours env after w
  = (Ok (if 0 <? 60 - Loop.second after then 60 - Loop.second after else 0),
     snd (monitor_cycle fromisoformat filter_hours env w)).
Proof.
  unfold Loop.run_iteration, try_except, mbind, M_bind.
  rewrite monitor_cycle_eq. cbn [snd].
  by destruct (0 <? 60 - Loop.second after).
Qed.

Lemma seen_of_cache s1 s2 ticker :
  cache s1 = cache s2 → seen_of ticker s1 = seen_of ticker s2.
Proof. unfold seen_of. by intros ->. Qed.

(** With a store that keeps nothing of an insert it fails, [process_ticker]
    keeps the rows and the marks in step. *)
Lemma process_ticker_stored_once env ticker w :
  atomic (env_exec_candles env ticker) →
  Loop.stored_once w →
  Loop.stored_once (snd (process_ticker fromisoformat filter_hours env ticker w)).
Proof.
  intros Hat [Hnd Hmarked].
  destruct (process_ticker_effect fromisoformat filter_hours env ticker w)
    as (rows & Hrows & Hall & _ & Hcase & Hother & _).
  set (w' := snd (process_ticker fromisoformat filter_hours env ticker w)) in *.
  set (S0 := seen_of ticker (mon w)) in *.
  assert (Hor : rows = []
                ∨ r_candle <$> rows
                  = fresh S0 (fetch_ticker_data fromisoformat filter_hours env ticker)).
  { destruct Hcase as [[? _]|[_ Hno]]; [by right|left; by apply Hno]. }
  assert (Hseen : seen_of ticker (mon w') = S0 ∪ begins (r_candle <$> rows)).
  { destruct Hcase as [[-> ->]|[-> Hno]]; [done|].
    rewrite (Hno Hat). unfold begins. simpl. by rewrite (right_id_L ∅ (∪)). }
  assert (Hnew : NoDup (get_begin <$> (r_candle <$> rows))
                 ∧ ∀ r, r ∈ rows → get_begin (r_candle r) ∉ S0).
  { destruct Hor as [->|Heq]; [split; [constructor|by intros ? ?%elem_of_nil]|].
    split; [rewrite Heq; apply fresh_NoDup|].
    intros r Hr. assert (Hc : r_candle r ∈ r_candle <$> rows)
      by (apply list_elem_of_fmap; eauto).
    rewrite Heq in Hc. by apply fresh_new in Hc as [_ ?]. }
  destruct Hnew as [Hnew1 Hnew2].
  assert (Hticker : ∀ r, r ∈ rows → r_ticker r = ticker).
  { intros r Hr. by apply (proj1 (Forall_forall _ _) Hall r Hr). }
  split.
  - rewrite Hrows, fmap_app. apply NoDup_app. split_and!; [done| |].
    + intros k (r & -> & Hr)%list_elem_of_fmap (r' & Hk & Hr')%list_elem_of_fmap.
      unfold Loop.row_key in Hk. injection Hk as Ht Hb.
      specialize (Hmarked r Hr). rewrite Ht, (Hticker r' Hr') in Hmarked.
      rewrite Hb in Hmarked. by apply (Hnew2 r' Hr').
    + assert (Hkeys : Loop.row_key <$> rows
                      = (λ b, (ticker, b)) <$> (get_begin <$> (r_candle <$> rows))).
      { rewrite <- !list_fmap_compose. apply list_fmap_ext.
        intros i r Hr. unfold Loop.row_key. simpl. f_equal.
        apply Hticker. by eapply list_elem_of_lookup_2. }
      rewrite Hkeys. apply NoDup_fmap_2; [|done]. by intros ? ? [= ->].
  - intros r. rewrite Hrows, elem_of_app. intros [Hr|Hr].
    + destruct (decide (r_ticker r = ticker)) as [Ht|Ht].
      * rewrite Ht, Hseen. specialize (Hmarked r Hr). rewrite Ht in Hmarked.
        set_solver.
      * unfold seen_of. rewrite Hother by done. by apply Hmarked.
    + rewrite (Hticker r Hr), Hseen. apply elem_of_union_r, elem_of_begins.
      exists (r_candle r). split; [|done]. apply list_elem_of_fmap. eauto.
Qed.

Lemma monitor_cycle_stored_once env w :
  atomic (env_exec_candles env "SBER") →
  Loop.stored_once w →
  Loop.stored_once (snd (monitor_cycle fromisoformat filter_hours env w)).
Proof.
  intros Hat Hw. rewrite monitor_cycle_eq. cbn [snd].
  apply (process_ticker_stored_once env "SBER" _ Hat) in Hw.
  set (w1 := snd (process_ticker _ _ _ _ w)) in *.
  destruct (save_index_data_effect env (fetch_index_data env) w1)
    as (Hrows & Hcache & _).
  destruct Hw as [Hnd Hmarked]. split.
  - by rewrite Hrows.
  - intros r. rewrite Hrows. intros Hr.
    rewrite (seen_of_cache _ (mon w1)) by done. by apply Hmarked.
Qed.

End Cycles.

(** No key is stored twice by a store that keeps nothing of an insert it
    fails.  If, to begin with, the rows have pairwise distinct keys (ticker and
    raw [begin]) and each key is in the seen-set of its ticker, then the same
    holds after any number of turns of the loop in which every failing candle
    insert left no row behind, whatever else the source and the store answer
    in each of them. *)
Theorem run_stores_each_key_once (fromisoformat : string → option datetime)
    (filter_hours : Z) turns w :
  Forall (λ turn : cycle_env * Z, atomic (env_exec_candles turn.1 "SBER")) turns →
  Loop.stored_once w →
  Loop.stored_once (Loop.run fromisoformat filter_hours turns w).
Proof.
  unfold Loop.run. revert w.
  induction turns as [|[env after] turns IH]; intros w Hat Hw; simpl; [done|].
  apply Forall_cons in Hat as [Hat Hrest].
  apply IH; [done|]. rewrite run_iteration_eq. cbn [snd].
  by apply monitor_cycle_stored_once.
Qed.

Lemma run_stores_each_key_once_witness :
  Loop.stored_once
    (Loop.run Iso.fromisoformat 1
       [(Scenario.env_down, Scenario.ten); (Scenario.env, Scenario.ten);
        (Scenario.env, Scenario.ten)] Scenario.start).
Proof.
  apply (run_stores_each_key_once Iso.fromisoformat 1 _ Scenario.start).
  - repeat constructor; intros f [= <-]; done.
  - split; [constructor|]. by intros r ?%elem_of_nil.
Defined.

(** The tables only grow: after any number of turns of the loop the rows that
    were stored are still there, unchanged and in their order; the candle rows
    added are rows of the ticker ["SBER"], and at most one index row is added
    per turn. *)
Theorem run_appends (fromisoformat : string → option datetime)
    (filter_hours : Z) turns w :
  ∃ rows irows,
    ticker_candles (Loop.run fromisoformat filter_hours turns w)
    = ticker_candles w ++ rows
    ∧ Forall (λ r, r_ticker r = "SBER") rows
    ∧ index_values (Loop.run fromisoformat filter_hours turns w)
      = index_values w ++ irows
    ∧ (length irows ≤ length turns)%nat.
Proof.
  unfold Loop.run. revert w.
  induction turns as [|[env after] turns IH]; intros w; simpl.
  - exists [], []. rewrite !app_nil_r. split_and!; [done|constructor|done|simpl; lia].
  - rewrite run_iteration_eq, monitor_cycle_eq. cbn [snd].
    destruct (process_ticker_effect fromisoformat filter_hours env "SBER" w)
      as (rows1 & Hrows1 & Hall1 & _ & _ & _ & _ & Hidx1 & _).
    set (w1 := snd (process_ticker _ _ _ _ w)) in *.
    destruct (save_index_data_effect fromisoformat env (fetch_index_data env) w1)
      as (Hrows2 & _ & _ & irows2 & Hidx2 & Hlen2 & _).
    set (w2 := snd (save_index_data _ _ _ w1)) in *.
    destruct (IH w2) as (rows & irows & Hr & Hall & Hi & Hlen).
    exists (rows1 ++ rows), (irows2 ++ irows).
    rewrite Hr, Hrows2, Hrows1, Hi, Hidx2, Hidx1, <- !app_assoc.
    split_and!; [done| |done|rewrite length_app; lia].
    apply Forall_app. split; [|done].
    eapply Forall_impl; [exact Hall1|]. by intros r [? _].
Qed.

(** The sleep of a turn of the loop lasts between 1 and 60 seconds and ends in
    the first second of a minute; the turn itself never raises, so the pause
    of 60 seconds of the handler is not what is slept. *)
Theorem run_iteration_sleeps_to_the_minute (fromisoformat : string → option datetime)
    (filter_hours : Z) env after w :
  ∃ wait_seconds,
    fst (Loop.run_iteration fromisoformat filter_hours env after w) = Ok wait_seconds
    ∧ wait_seconds = 60 - Loop.second after
    ∧ 1 ≤ wait_seconds ≤ 60
    ∧ (after + wait_seconds * 1000000) `mod` 60000000 = after `mod` 1000000.
Proof.
  rewrite run_iteration_eq. cbn [fst].
  assert (Hs : 0 ≤ Loop.second after < 60)
    by (unfold Loop.second; apply Z.mod_pos_bound; lia).
  exists (60 - Loop.second after).
  replace (0 <? 60 - Loop.second after) with true by (symmetry; apply Z.ltb_lt; lia).
  split_and!; [done|done|lia|lia|].
  unfold Loop.second. Z.div_mod_to_equations. lia.
Qed.

(** ** The index snapshot *)

(** The [SYSTIME] of a snapshot is marked when its insert returns, and only
    then.  For a snapshot whose [SYSTIME] is new: when the insert returns, one
    row is stored, the key is marked, and a later snapshot with the same
    [SYSTIME], whatever its other fields, is dropped without a call.  When the
    insert raises, the key is not marked and the table has grown by the row of
    the snapshot if the store had accepted it, by nothing otherwise; the next
    snapshot with that [SYSTIME] is inserted again and, when that insert
    returns, adds its row: the second row of the [SYSTIME] when the first was
    accepted. *)
Theorem index_snapshot_marked_on_return (fromisoformat : string → option datetime)
    env env2 idx idx2 key w :
  SYSTIME idx = Some key → SYSTIME idx2 = Some key → key ≠ "" →
  key ∉ index_cache (mon w) →
  let w1 := snd (save_index_data fromisoformat env (Some idx) w) in
  let w2 := snd (save_index_data fromisoformat env2 (Some idx2) w1) in
  if connected w && bool_decide (env_exec_index env = None) then
    (∃ row, index_values w1 = index_values w ++ [row] ∧ i_source row = idx)
    ∧ key ∈ index_cache (mon w1)
    ∧ w2 = w1
  else
    index_cache (mon w1) = index_cache (mon w)
    ∧ (∃ kept, index_values w1 = index_values w ++ kept
         ∧ (∀ r, r ∈ kept → i_source r = idx)
         ∧ (atomic (env_exec_index env) ∨ connected w = false → kept = [])
         ∧ (∀ f, connected w = true → env_exec_index env = Some f →
                 accepted f 0%nat = true → length kept = 1%nat))
    ∧ (env_exec_index env2 = None → connected w = true →
       ∃ row, index_values w2 = index_values w1 ++ [row] ∧ i_source row = idx2).
Proof.
  intros Hk Hk2 Hne Hnot w1 w2. subst w1 w2.
  rewrite (save_index_data_eq _ _ _ key) by done. cbn [snd]. cbv zeta.
  set (wc := record_call (InsertIndex idx (mon w)) w).
  set (values := {| i_secid := SECID idx;
                    i_systime := parse_datetime fromisoformat (SYSTIME idx);
                    i_source := idx |}).
  assert (Hretry : ∀ wf, index_cache (mon wf) = index_cache (mon w) →
    connected wf = connected w →
    env_exec_index env2 = None → connected w = true →
    ∃ row, index_values (snd (save_index_data fromisoformat env2 (Some idx2) wf))
           = index_values wf ++ [row] ∧ i_source row = idx2).
  { intros wf Hcache Hconn He2 Hc.
    rewrite (save_index_data_eq _ _ _ key) by (done || by rewrite Hcache).
    cbn [snd]. cbv zeta. rewrite Hconn, Hc, He2. by eexists. }
  destruct (connected w) eqn:Ec; cbn [andb].
  - destruct (env_exec_index env) as [f|] eqn:Ee.
    + rewrite bool_decide_false by done.
      destruct (accepted f 0%nat) eqn:Ea.
      * split_and!; [done| |by apply Hretry].
        exists [values]. split_and!; [done| | |done].
        -- by intros r ->%list_elem_of_singleton.
        -- intros [Hat|?]; [|done]. specialize (Hat f eq_refl 0%nat). congruence.
      * split_and!; [done| |by apply Hretry].
        exists []. rewrite app_nil_r. split_and!; [done| |done|].
        -- by intros r ?%elem_of_nil.
        -- intros f' _ [= <-]. congruence.
    + rewrite bool_decide_true by done. split_and!.
      * by eexists.
      * cbn. set_solver.
      * rewrite save_index_data_idle; [done|].
        intros i k [= <-]. rewrite Hk2. intros [= <-]. right.
        cbn. set_solver.
  - split_and!; [done| |done].
    exists []. rewrite app_nil_r. split_and!; [done| |done|done].
    by intros r ?%elem_of_nil.
Qed.

Lemma index_snapshot_marked_on_return_witness :
  let w1 := snd (save_index_data Iso.fromisoformat Scenario.env_index_only
                   (Some Scenario.imoex) Scenario.start) in
  (∃ row, index_values w1 = [row] ∧ i_source row = Scenario.imoex)
  ∧ "2024-01-15 10:00:00" ∈ index_cache (mon w1)
  ∧ snd (save_index_data Iso.fromisoformat Scenario.env_index_only
           (Some Scenario.imoex) w1) = w1.
Proof.
  intros w1.
  apply (index_snapshot_marked_on_return Iso.fromisoformat Scenario.env_index_only
           Scenario.env_index_only Scenario.imoex Scenario.imoex
           "2024-01-15 10:00:00" Scenario.start); [done|done|done|].
  simpl. apply not_elem_of_empty.
Defined.

(** ** The index client and the monitor *)

Lemma find_first {A} (f : A → bool) (l : list A) :
  match List.find f l with
  | Some x => ∃ pre post, l = pre ++ x :: post ∧ f x = true
                          ∧ ∀ y, y ∈ pre → f y = false
  | None => ∀ y, y ∈ l → f y = false
  end.
Proof.
  induction l as [|a l IH]; simpl; [by intros ? ?%elem_of_nil|].
  destruct (f a) eqn:Ea.
  - exists [], l. split_and!; [done|done|by intros ? ?%elem_of_nil].
  - destruct (List.find f l) as [x|].
    + destruct IH as (pre & post & -> & Hx & Hpre).
      exists (a :: pre), post. split_and!; [done|done|].
      intros y [->|Hy]%elem_of_cons; [done|by apply Hpre].
    + intros y [->|Hy]%elem_of_cons; [done|by apply IH].
Qed.

(** The monitor stores the index it asks for, from the first matching row.
    When [get_moex_index] serves the index fetch of a cycle over the rows
    [board] of the exchange, an index row is stored only with an open session
    and an answer of the exchange, its [SECID] is ["IMOEX"], and it was made
    from the first row of the answer that has this [SECID]. *)
Theorem monitor_stores_the_index_asked_for (fromisoformat : string → option datetime)
    (filter_hours : Z) session board env w :
  env_index env = Client.get_moex_index session board "IMOEX" →
  let w' := snd (monitor_cycle fromisoformat filter_hours env w) in
  ∃ irows, index_values w' = index_values w ++ irows
    ∧ (length irows ≤ 1)%nat
    ∧ ∀ r, r ∈ irows →
        session = true ∧ i_secid r = Some "IMOEX"
        ∧ ∃ pre post, board = Ok (pre ++ i_source r :: post)
                      ∧ ∀ x, x ∈ pre → SECID x ≠ Some "IMOEX".
Proof.
  intros Henv w'. subst w'. rewrite monitor_cycle_eq. cbn [snd].
  destruct (process_ticker_effect fromisoformat filter_hours env "SBER" w)
    as (rows1 & _ & _ & _ & _ & _ & _ & Hidx1 & _).
  set (w1 := snd (process_ticker _ _ _ _ w)) in *.
  destruct (save_index_data_effect fromisoformat env (fetch_index_data env) w1)
    as (_ & _ & _ & irows & Hidx2 & Hlen & Hsrc).
  exists irows. rewrite Hidx2, Hidx1. split_and!; [done|done|].
  intros r Hr. destruct (Hsrc r Hr) as [Hfetch Hsecid].
  unfold fetch_index_data in Hfetch. rewrite Henv in Hfetch.
  unfold Client.get_moex_index, Client._ensure_session in Hfetch.
  destruct session; [|done]. destruct board as [data|e]; [|done].
  assert (Hfind := find_first (λ item, bool_decide (SECID item = Some "IMOEX")) data).
  rewrite Hfetch in Hfind. destruct Hfind as (pre & post & -> & Hx & Hpre).
  apply bool_decide_eq_true in Hx. split_and!; [done|by rewrite Hsecid|].
  exists pre, post. split; [done|].
  intros x Hx'. specialize (Hpre x Hx'). by apply bool_decide_eq_false in Hpre.
Qed.

Lemma monitor_stores_the_index_asked_for_witness :
  let w' := snd (monitor_cycle Iso.fromisoformat 1 Scenario.env_index_only
                   Scenario.start) in
  ∃ irows, index_values w' = index_values Scenario.start ++ irows
    ∧ (length irows ≤ 1)%nat
    ∧ ∀ r, r ∈ irows →
        true = true ∧ i_secid r = Some "IMOEX"
        ∧ ∃ pre post, Ok [Scenario.imoex] = Ok (pre ++ i_source r :: post)
                      ∧ ∀ x, x ∈ pre → SECID x ≠ Some "IMOEX".
Proof.
  apply (monitor_stores_the_index_asked_for Iso.fromisoformat 1 true
           (Ok [Scenario.imoex]) Scenario.env_index_only Scenario.start).
  reflexivity.
Defined.

(** ** [save_ticker_data] doing the selection itself *)

Section OwnFilter.

Variable fromisoformat : string → option datetime.

Lemma build_values_returns ticker candles : ∀ values_list,
  (∀ x, x ∈ candles → ¬ bad_end fromisoformat x) →
  ∃ out, build_values fromisoformat ticker candles values_list = Ok out.
Proof.
  induction candles as [|c rest IH]; intros acc Hgood; [by eexists|].
  assert (Hrest : ∀ acc', ∃ out,
            build_values fromisoformat ticker rest acc' = Ok out).
  { intros acc'. apply IH. intros x Hx. apply Hgood. by right. }
  assert (Hc : ¬ bad_end fromisoformat c) by (apply Hgood; by left).
  unfold bad_end, get_begin in Hc. simpl.
  destruct (c_begin c) as [b|]; [|apply Hrest]. simpl in Hc.
  destruct (decide (b = "")); [apply Hrest|].
  destruct (fromisoformat (replace_space_T b)) as [d|]; [|apply Hrest].
  destruct (c_end c) as [e|]; [|apply Hrest].
  destruct (decide (e = "")); [apply Hrest|].
  destruct (fromisoformat (replace_space_T e)) as [d'|] eqn:Ee; [apply Hrest|].
  exfalso. apply Hc. split_and!; [done|by eexists|by exists e].
Qed.

(** With [new_data=None] the selection is made first. *)
Lemma save_ticker_own_filter env ticker data w :
  let S := seen_of ticker (mon w) in
  data ≠ [] →
  save_ticker_data fromisoformat env ticker data None w
  = save_ticker_data fromisoformat env ticker data (Some (fresh S data))
      (set_cache (λ _, <[ticker := S ∪ begins (fresh S data)]>
                         (ensure_ticker ticker (cache (mon w)))) w).
Proof.
  intros S Hd. destruct data as [|d0 data']; [done|].
  unfold save_ticker_data, resolve_new_data, mbind, M_bind.
  by rewrite filter_new_candlesM_eq.
Qed.

Lemma own_filter_effect env ticker data w :
  let S := seen_of ticker (mon w) in
  let w' := snd (save_ticker_data fromisoformat env ticker data None w) in
  connected w = true → env_exec_candles env ticker = None →
  (∀ x, x ∈ data → ¬ bad_end fromisoformat x) →
  data ≠ [] →
  seen_of ticker (mon w') = S ∪ begins (fresh S data)
  ∧ ∃ rows, ticker_candles w' = ticker_candles w ++ rows
            ∧ Forall (row_of fromisoformat ticker) rows.
Proof.
  intros S w' Hc He Hgood Hd. subst w'.
  rewrite save_ticker_own_filter by done. fold S.
  set (nd := fresh S data). set (w1 := set_cache _ w).
  assert (H1 : seen_of ticker (mon w1) = S ∪ begins nd).
  { unfold seen_of, w1. simpl. by rewrite lookup_insert_eq. }
  destruct (decide (nd = [])) as [Hn|Hn].
  { rewrite Hn, save_ticker_nothing. cbn [snd]. split; [by rewrite H1, Hn|].
    exists []. by rewrite app_nil_r. }
  rewrite save_ticker_step by done. rewrite insert_batch_eq. cbv zeta.
  replace (connected w1) with true by done. rewrite He.
  destruct (build_values_returns ticker nd []) as [vl Hvl].
  { intros x Hx. apply Hgood.
    by apply (sublist_subseteq _ _ (fresh_sublist data S)). }
  destruct nd as [|n0 nd'] eqn:End; [done|]. rewrite <- End in *.
  rewrite Hvl.
  destruct (build_values_rows _ _ _ _ _ Hvl) as (rows & -> & _ & Hrows & _).
  simpl in *. destruct rows as [|r0 rows']; cbn [snd].
  - split; [done|]. exists []. by rewrite app_nil_r.
  - split; [done|]. by exists (r0 :: rows').
Qed.

(** One call of [save_ticker_data] that selects for itself and has rows to
    insert. *)
Lemma own_filter_step env ticker data rows w :
  let S := seen_of ticker (mon w) in
  let w' := snd (save_ticker_data fromisoformat env ticker data None w) in
  connected w = true →
  build_values fromisoformat ticker (fresh S data) [] = Ok rows → rows ≠ [] →
  connected w' = true
  ∧ match env_exec_candles env ticker with
    | None => ticker_candles w' = ticker_candles w ++ rows
              ∧ seen_of ticker (mon w') = S ∪ begins (fresh S data)
    | Some f => ticker_candles w' = ticker_candles w ++ accepted_rows f rows
                ∧ seen_of ticker (mon w') = S
    end.
Proof.
  intros S w' Hc Hb Hrows. subst w'.
  assert (Hn : fresh S data ≠ []).
  { intros E. rewrite E in Hb. simpl in Hb. by injection Hb as <-. }
  assert (Hd : data ≠ []) by (by intros ->).
  rewrite save_ticker_own_filter by done. fold S.
  set (nd := fresh S data) in *. set (w1 := set_cache _ w).
  assert (H1 : seen_of ticker (mon w1) = S ∪ begins nd).
  { unfold seen_of, w1. simpl. by rewrite lookup_insert_eq. }
  rewrite save_ticker_step by done. rewrite insert_batch_eq. cbv zeta.
  replace (connected w1) with true by done.
  destruct nd as [|n0 nd'] eqn:End; [done|]. rewrite <- End in *.
  rewrite Hb. destruct rows as [|r0 rows']; [done|].
  destruct (env_exec_candles env ticker) as [f|]; cbn [snd].
  - split_and!; [done|done|].
    assert (Hr : seen_of ticker
                   (mon (set_cache (rollback ticker nd)
                           (add_candle_rows (accepted_rows f (r0 :: rows'))
                              (record_call (InsertCandles ticker nd (mon w1)) w1))))
                 = seen_of ticker (mon w1) ∖ begins nd)
      by (unfold seen_of; simpl; apply rollback_lookup).
    rewrite Hr, H1. unfold nd. apply (begins_fresh_disjoint fromisoformat).
  - by split_and!.
Qed.

End OwnFilter.

(** Called without [new_data], [save_ticker_data] marks before it can know
    what will be stored.  With the store in reach and no [end] that fails to
    parse, a candle whose [begin] is not empty and does not parse is in the
    seen-set after the call, no row with its [begin] is stored, and a second
    selection from the same data is empty: the candle is neither stored nor
    tried again. *)
Theorem unparseable_begin_is_marked_not_stored
    (fromisoformat : string → option datetime) env ticker data c w :
  let w' := snd (save_ticker_data fromisoformat env ticker data None w) in
  connected w = true → env_exec_candles env ticker = None →
  (∀ x, x ∈ data → ¬ bad_end fromisoformat x) →
  c ∈ data → get_begin c ≠ "" →
  fromisoformat (replace_space_T (get_begin c)) = None →
  get_begin c ∈ seen_of ticker (mon w')
  ∧ (∃ rows, ticker_candles w' = ticker_candles w ++ rows
             ∧ Forall (row_of fromisoformat ticker) rows
             ∧ ∀ r, r ∈ rows → get_begin (r_candle r) ≠ get_begin c)
  ∧ fresh (seen_of ticker (mon w')) data = [].
Proof.
  intros w' Hc He Hgood Hin Hne Hp.
  assert (Hd : data ≠ []) by (intros ->; by apply elem_of_nil in Hin).
  destruct (own_filter_effect fromisoformat env ticker data w Hc He Hgood Hd)
    as (Hseen & rows & Hrows & Hall).
  fold w' in Hseen, Hrows. rewrite Hseen. split_and!.
  - by apply fresh_covers.
  - exists rows. split_and!; [done|done|].
    intros r Hr Heq. rewrite Forall_forall in Hall.
    destruct (Hall r Hr) as (_ & _ & Hparse & _). congruence.
  - apply fresh_again.
Qed.

Lemma unparseable_begin_is_marked_not_stored_witness :
  let data := [Scenario.c0930; Scenario2.c_no_time] in
  let w' := snd (save_ticker_data Iso.fromisoformat Scenario.env "SBER" data None
                   Scenario.start) in
  "yesterday" ∈ seen_of "SBER" (mon w')
  ∧ (∃ rows, ticker_candles w' = ticker_candles Scenario.start ++ rows
             ∧ Forall (row_of Iso.fromisoformat "SBER") rows
             ∧ ∀ r, r ∈ rows → get_begin (r_candle r) ≠ "yesterday")
  ∧ fresh (seen_of "SBER" (mon w')) data = [].
Proof.
  intros data w'.
  apply (unparseable_begin_is_marked_not_stored Iso.fromisoformat Scenario.env
           "SBER" data Scenario2.c_no_time Scenario.start).
  - reflexivity.
  - reflexivity.
  - intros x Hx (_ & _ & e & He & _).
    apply elem_of_cons in Hx as [->|Hx]; [discriminate He|].
    apply elem_of_cons in Hx as [->|Hx]; [discriminate He|].
    by apply elem_of_nil in Hx.
  - by right; left.
  - done.
  - by vm_compute.
Defined.

(** A failing insert of which the store kept rows is followed by a second
    copy of them.  When the store is in reach and fails an insert after it has
    accepted some of its rows, [save_ticker_data] leaves these rows in the
    table and takes the keys of the whole batch out of the seen-set; the next
    call with the same data selects the same batch, and when its insert
    returns, the table holds the rows accepted the first time and after them
    the rows of the whole batch. *)
Theorem partly_accepted_batch_is_stored_again
    (fromisoformat : string → option datetime) env env2 ticker data f rows w :
  let S0 := seen_of ticker (mon w) in
  connected w = true →
  env_exec_candles env ticker = Some f →
  env_exec_candles env2 ticker = None →
  build_values fromisoformat ticker (fresh S0 data) [] = Ok rows → rows ≠ [] →
  let w1 := snd (save_ticker_data fromisoformat env ticker data None w) in
  let w2 := snd (save_ticker_data fromisoformat env2 ticker data None w1) in
  ticker_candles w1 = ticker_candles w ++ accepted_rows f rows
  ∧ seen_of ticker (mon w1) = S0
  ∧ ticker_candles w2 = ticker_candles w ++ accepted_rows f rows ++ rows.
Proof.
  intros S0 Hc Hf Hok Hb Hrows w1 w2.
  destruct (own_filter_step fromisoformat env ticker data rows w Hc Hb Hrows)
    as [Hc1 H1].
  rewrite Hf in H1. fold w1 in Hc1, H1. destruct H1 as [Ht1 Hs1].
  assert (Hb1 : build_values fromisoformat ticker
                  (fresh (seen_of ticker (mon w1)) data) [] = Ok rows)
    by (by rewrite Hs1).
  destruct (own_filter_step fromisoformat env2 ticker data rows w1 Hc1 Hb1 Hrows)
    as [_ H2].
  rewrite Hok in H2. fold w2 in H2. destruct H2 as [Ht2 _].
  split_and!; [done|done|]. by rewrite Ht2, Ht1, <- app_assoc.
Qed.

Lemma partly_accepted_batch_is_stored_again_witness :
  let data := [Scenario.c0930; Scenario.c0931] in
  let w1 := snd (save_ticker_data Iso.fromisoformat Scenario2.env_keeps_first "SBER"
                   data None Scenario.start) in
  let w2 := snd (save_ticker_data Iso.fromisoformat Scenario.env "SBER" data None w1) in
  r_candle <$> ticker_candles w2 = [Scenario.c0930; Scenario.c0930; Scenario.c0931].
Proof.
  intros data w1 w2.
  destruct (partly_accepted_batch_is_stored_again Iso.fromisoformat
              Scenario2.env_keeps_first Scenario.env "SBER" data
              {| raised := OtherError "ChClientError";
                 accepted := λ i, bool_decide (i = 0%nat) |}
              (match build_values Iso.fromisoformat "SBER" data [] with
               | Ok built => built
               | Raise _ => []
               end)
              Scenario.start) as (_ & _ & Hrows).
  - reflexivity.
  - reflexivity.
  - reflexivity.
  - by vm_compute.
  - by vm_compute.
  - fold data w1 w2 in Hrows. rewrite Hrows. by vm_compute.
Defined.

End MonitorMore.

(** * The client of the exchange *)

Module ClientFacts.

Import Client.

#[local] Set Warnings "-clear-no-such-hyp".

Section Digits.

Variable uni_digit : N → bool.

Lemma digits_app n : ∀ ds rest,
  length ds = n → Forall (λ c, digit uni_digit c = true) ds →
  digits uni_digit n (ds ++ rest) = Some rest.
Proof.
  induction n as [|n IH]; intros [|c ds] rest Hl Hd; simpl in *; try done.
  apply Forall_cons in Hd as [Hc Hd]. rewrite Hc. apply IH; [lia|done].
Qed.

Lemma digits_inv n : ∀ s rest,
  digits uni_digit n s = Some rest →
  ∃ ds, s = ds ++ rest ∧ length ds = n
        ∧ Forall (λ c, digit uni_digit c = true) ds.
Proof.
  induction n as [|n IH]; intros s rest; simpl.
  - intros [= ->]. by exists [].
  - destruct s as [|c s]; [done|].
    destruct (digit uni_digit c) eqn:Ec; [|done].
    intros H. destruct (IH _ _ H) as (ds & -> & Hl & Hd).
    exists (c :: ds). split_and!; [done|simpl; lia|by constructor].
Qed.

Lemma hyphen_inv s rest : hyphen s = Some rest → s = 45%N :: rest.
Proof.
  destruct s as [|c s]; simpl; [done|].
  destruct (N.eqb_spec c 45) as [->|]; [|done]. by intros [= ->].
Qed.

Lemma at_end_inv s : at_end s = true ↔ s = [] ∨ s = [10%N].
Proof.
  destruct s as [|c [|c' s]]; simpl.
  - split; [by left|done].
  - rewrite N.eqb_eq. split; [intros ->; by right|by intros [|[= ->]]].
  - split; [done|by intros [|]].
Qed.

(** The pattern accepts the dates of this shape and no other string. *)
Lemma date_format_shape s :
  date_format uni_digit s = true ↔ date_shaped uni_digit s.
Proof.
  unfold date_format, date_shaped. split.
  - destruct (digits uni_digit 4 s) as [r1|] eqn:E1; [|done].
    destruct (hyphen r1) as [r2|] eqn:E2; [|done].
    destruct (digits uni_digit 2 r2) as [r3|] eqn:E3; [|done].
    destruct (hyphen r3) as [r4|] eqn:E4; [|done].
    destruct (digits uni_digit 2 r4) as [r5|] eqn:E5; [|done].
    intros Hend%at_end_inv.
    apply digits_inv in E1 as (y & -> & Hy & Hyd).
    apply hyphen_inv in E2 as ->.
    apply digits_inv in E3 as (m & -> & Hm & Hmd).
    apply hyphen_inv in E4 as ->.
    apply digits_inv in E5 as (d & -> & Hd & Hdd).
    exists y, m, d, r5. split_and!; try done.
    by repeat apply Forall_app_2.
  - intros (y & m & d & nl & -> & Hy & Hm & Hd & Hall & Hnl).
    apply Forall_app in Hall as [Hyd Hall].
    apply Forall_app in Hall as [Hmd Hdd].
    rewrite digits_app by done. cbn [hyphen]. rewrite N.eqb_refl.
    rewrite digits_app by done. cbn [hyphen]. rewrite N.eqb_refl.
    rewrite digits_app by done. by apply at_end_inv.
Qed.

Lemma validate_if_given_spec date_str :
  (validate_if_given uni_digit date_str = Ok tt
   ∧ ∀ s, date_str = Some s → s ≠ [] → date_shaped uni_digit s)
  ∨ (validate_if_given uni_digit date_str = Raise ValueError
     ∧ ∃ s, date_str = Some s ∧ s ≠ [] ∧ ¬ date_shaped uni_digit s).
Proof.
  destruct date_str as [[|c rest]|]; simpl.
  - left. split; [done|]. by intros s [= <-].
  - unfold _validate_date.
    destruct (date_format uni_digit (c :: rest)) eqn:E.
    + left. split; [done|]. intros s [= <-] _. by apply date_format_shape.
    + right. split; [done|]. exists (c :: rest). split_and!; [done|done|].
      intros H%date_format_shape. congruence.
  - left. split; [done|]. by intros s.
Qed.

End Digits.

(** [get_ticker_data] checks before it asks.  Without a session it raises
    [RuntimeError]; with one, and a date that is given and does not have the
    shape of the pattern, or an interval outside the seven, it raises
    [ValueError] whatever the exchange would have answered; and with
    parameters that pass, its outcome is that of the request, result or
    exception.  The shape asks for digits only, [2024-99-99] passes, and so
    does a date followed by one line break. *)
Theorem get_ticker_data_checks_before_it_asks (uni_digit : N → bool)
    session start_date end_date interval resp :
  (session = false →
   get_ticker_data uni_digit session start_date end_date interval resp
   = Raise RuntimeError)
  ∧ (session = true → ¬ accepted uni_digit start_date end_date interval →
     get_ticker_data uni_digit session start_date end_date interval resp
     = Raise ValueError)
  ∧ (session = true → accepted uni_digit start_date end_date interval →
     get_ticker_data uni_digit session start_date end_date interval resp = resp)
  ∧ accepted uni_digit (Some (Parser.codes "2024-99-99")) None 1
  ∧ accepted uni_digit (Some (Parser.codes "2024-01-15" ++ [10%N])) None 1
  ∧ ¬ accepted uni_digit (Some (Parser.codes "2024-1-15")) None 1
  ∧ ¬ accepted uni_digit None None 5.
Proof.
  assert (Hok : ∀ s, date_format uni_digit s = true →
            accepted uni_digit (Some s) None 1).
  { intros s Hs. split_and!; [|done|by left].
    intros s' [= <-] _. by apply date_format_shape. }
  split_and!.
  - by intros ->.
  - intros -> Hno. unfold get_ticker_data, accepted in *. simpl.
    destruct (validate_if_given_spec uni_digit start_date)
      as [[-> Hs]|[-> _]]; [|done].
    destruct (validate_if_given_spec uni_digit end_date)
      as [[-> He]|[-> _]]; [|done].
    unfold _validate_interval. case_decide as Hi; [|done].
    exfalso. by apply Hno.
  - intros -> (Hs & He & Hi). unfold get_ticker_data. simpl.
    destruct (validate_if_given_spec uni_digit start_date)
      as [[-> _]|[_ (s & -> & Hne & Hno)]]; [|exfalso; by apply Hno, Hs].
    destruct (validate_if_given_spec uni_digit end_date)
      as [[-> _]|[_ (s & -> & Hne & Hno)]]; [|exfalso; by apply Hno, He].
    unfold _validate_interval. by rewrite decide_True.
  - by apply Hok.
  - by apply Hok.
  - intros (Hs & _). specialize (Hs _ eq_refl ltac:(done)).
    by apply date_format_shape in Hs.
  - intros (_ & _ & Hi). unfold VALID_INTERVALS in Hi. set_solver.
Qed.

End ClientFacts.

(** * Further properties of the tag extraction *)

Module ParserMore.

Import Parser ParserSpec ParserFacts.

#[local] Set Warnings "-clear-no-such-hyp".

Local Open Scope N_scope.

Section Unicode.

Variable uni_word : N → bool.
Variable uni_lower : str → nat → list N.

(** *** Tags and hash signs *)

Lemma emit_length (w : str) : (length (emit w) ≤ 1)%nat.
Proof. destruct w; simpl; lia. Qed.

Lemma scan_length text : ∀ cur,
  (length (scan uni_word cur text)
   ≤ match cur with Some _ => 1 | None => 0 end
     + length (List.filter (N.eqb 35) text))%nat.
Proof.
  induction text as [|c rest IH]; intros cur.
  - destruct cur as [w|]; simpl; [|lia]. assert (He := emit_length w). lia.
  - assert (Hrest : (length (if (c =? 35)%N then scan uni_word (Some []) rest
                             else scan uni_word None rest)
                     ≤ length (List.filter (N.eqb 35) (c :: rest)))%nat).
    { cbn [List.filter]. rewrite (N.eqb_sym 35 c). destruct (c =? 35).
      - specialize (IH (Some [])). simpl in *. lia.
      - specialize (IH None). simpl in *. lia. }
    destruct cur as [w|]; cbn [scan]; [|lia].
    destruct (word_char uni_word c) eqn:Ew.
    + specialize (IH (Some (w ++ [c]))). cbn [List.filter]. cbv iota in IH.
      destruct (35 =? c); simpl; lia.
    + rewrite length_app. assert (He := emit_length w). lia.
Qed.

Lemma size_list_to_set_le (l : list str) :
  (size (list_to_set l : gset str) ≤ length l)%nat.
Proof.
  induction l as [|x l IH]; [by rewrite list_to_set_nil, size_empty|].
  rewrite list_to_set_cons, size_union_alt, size_singleton. simpl.
  assert (size (list_to_set l ∖ {[x]} : gset str) ≤ size (list_to_set l : gset str))%nat
    by (apply subseteq_size; set_solver).
  lia.
Qed.

(** *** Texts in two parts *)

Lemma scan_separated c t2 : ∀ t1 cur,
  word_char uni_word c = false → c ≠ 35 →
  scan uni_word cur (t1 ++ c :: t2)
  = scan uni_word cur t1 ++ scan uni_word None t2.
Proof.
  intros t1 cur Hw Hc. assert (Hc' : (c =? 35) = false) by (by apply N.eqb_neq).
  revert cur. induction t1 as [|x rest IH]; intros [w|]; simpl.
  - by rewrite Hw, Hc'.
  - by rewrite Hc'.
  - destruct (word_char uni_word x); [apply IH|].
    rewrite <- app_assoc. f_equal. destruct (x =? 35); apply IH.
  - destruct (x =? 35); apply IH.
Qed.

(** *** ASCII texts *)

Lemma lower_ascii_aux (s : str) : ∀ (g : nat → list N),
  is_ascii s →
  concat (imap (λ i c, if c <? 128 then [ascii_lower c] else g i) s)
  = ascii_lower <$> s.
Proof.
  induction s as [|c s IH]; intros g Hs; [done|].
  apply Forall_cons_1 in Hs as [Hc Hs]. rewrite imap_cons. simpl.
  rewrite (proj2 (N.ltb_lt _ _) Hc). simpl. f_equal.
  apply (IH (g ∘ S) Hs).
Qed.

Lemma lower_ascii (s : str) : is_ascii s → lower uni_lower s = ascii_lower <$> s.
Proof. intros Hs. unfold lower. by apply lower_ascii_aux. Qed.

Lemma ascii_word_spec c :
  ascii_word c = true
  ↔ 48 ≤ c ≤ 57 ∨ 65 ≤ c ≤ 90 ∨ c = 95 ∨ 97 ≤ c ≤ 122.
Proof.
  unfold ascii_word.
  rewrite !orb_true_iff, !andb_true_iff, !N.leb_le, N.eqb_eq. tauto.
Qed.

Lemma ascii_lower_spec c :
  (65 ≤ c ≤ 90 ∧ ascii_lower c = c + 32) ∨ (¬ (65 ≤ c ≤ 90) ∧ ascii_lower c = c).
Proof.
  unfold ascii_lower.
  destruct (N.leb_spec 65 c); destruct (N.leb_spec c 90); simpl; [left|right..]; lia.
Qed.

Lemma ascii_lower_ascii c : c < 128 → ascii_lower c < 128.
Proof. destruct (ascii_lower_spec c) as [[? ->]|[? ->]]; lia. Qed.

Lemma ascii_lower_idemp c : ascii_lower (ascii_lower c) = ascii_lower c.
Proof.
  destruct (ascii_lower_spec c) as [[? Hc]|[? Hc]]; rewrite Hc; [|done].
  destruct (ascii_lower_spec (c + 32)) as [[? ->]|[? ->]]; [lia|done].
Qed.

Lemma ascii_lower_hash c : (ascii_lower c =? 35) = (c =? 35).
Proof.
  destruct (ascii_lower_spec c) as [[? ->]|[? ->]]; [|done].
  transitivity false; [apply N.eqb_neq|symmetry; apply N.eqb_neq]; lia.
Qed.

Lemma ascii_lower_word c : ascii_word (ascii_lower c) = ascii_word c.
Proof.
  apply eq_true_iff_eq. rewrite !ascii_word_spec.
  destruct (ascii_lower_spec c) as [[? ->]|[? ->]]; lia.
Qed.

Lemma word_char_lower c :
  c < 128 → word_char uni_word (ascii_lower c) = word_char uni_word c.
Proof.
  intros Hc. unfold word_char.
  rewrite (proj2 (N.ltb_lt _ _) Hc), (proj2 (N.ltb_lt _ _) (ascii_lower_ascii c Hc)).
  apply ascii_lower_word.
Qed.

Lemma emit_lower (w : str) :
  emit (ascii_lower <$> w) = (fmap (M:=list) ascii_lower) <$> emit w.
Proof. by destruct w. Qed.

Lemma scan_lower text : ∀ cur,
  is_ascii text →
  scan uni_word (fmap (M:=list) ascii_lower <$> cur) (ascii_lower <$> text)
  = (fmap (M:=list) ascii_lower) <$> scan uni_word cur text.
Proof.
  induction text as [|c rest IH]; intros [w|] Ht; simpl; try done.
  - apply emit_lower.
  - apply Forall_cons_1 in Ht as [Hc Ht].
    rewrite word_char_lower, ascii_lower_hash by done.
    destruct (word_char uni_word c).
    + rewrite <- (IH (Some (w ++ [c])) Ht). simpl. by rewrite fmap_app.
    + rewrite fmap_app, emit_lower. f_equal.
      destruct (c =? 35); [apply (IH (Some []) Ht)|apply (IH None Ht)].
  - apply Forall_cons_1 in Ht as [Hc Ht]. rewrite ascii_lower_hash.
    destruct (c =? 35); [apply (IH (Some []) Ht)|apply (IH None Ht)].
Qed.

Lemma hashtag_ascii text w :
  is_ascii text → hashtag uni_word text w → is_ascii w.
Proof.
  intros Ht (_ & _ & pre & post & -> & _).
  apply Forall_app in Ht as [_ Ht]. apply Forall_cons_1 in Ht as [_ Ht].
  by apply Forall_app in Ht as [? _].
Qed.

Lemma is_ascii_lower s : is_ascii s → is_ascii (ascii_lower <$> s).
Proof.
  intros Hs. apply Forall_fmap. eapply Forall_impl; [exact Hs|].
  intros c Hc. by apply ascii_lower_ascii.
Qed.

End Unicode.

(** A text has at most as many tags as it has [#] signs; without a [#] it has
    none. *)
Theorem extract_tags_bounded_by_hashes (uni_word : N → bool)
    (uni_lower : str → nat → list N) (text : str) :
  (length (extract_tags uni_word uni_lower text)
   ≤ length (List.filter (N.eqb 35) text))%nat
  ∧ (35 ∉ text → extract_tags uni_word uni_lower text = []).
Proof.
  assert (Hle : (length (extract_tags uni_word uni_lower text)
                 ≤ length (List.filter (N.eqb 35) text))%nat).
  { rewrite extract_tags_elements.
    change (length (elements ?X)) with (size X).
    etrans; [apply size_list_to_set_le|]. rewrite length_fmap.
    apply (scan_length uni_word text None). }
  split; [done|]. intros Hno.
  assert (Hz : List.filter (N.eqb 35) text = []).
  { clear Hle. induction text as [|c rest IH]; [done|]. cbn [List.filter].
    apply not_elem_of_cons in Hno as [Hc Hrest].
    destruct (35 =? c) eqn:E; [apply N.eqb_eq in E; congruence|by apply IH]. }
  rewrite Hz in Hle. simpl in Hle.
  by destruct (extract_tags uni_word uni_lower text); [|simpl in Hle; lia].
Qed.

(** The tags of a text in two parts, separated by a character that is neither
    a word character nor a [#] (a space, a line break, a comma): a string is a
    tag of the whole text exactly when it is a tag of the first part or a tag
    of the second.  Nothing is said of the order of the list, which is that of
    a set. *)
Theorem extract_tags_of_two_parts (uni_word : N → bool)
    (uni_lower : str → nat → list N) (t1 t2 : str) (c : N) :
  word_char uni_word c = false → c ≠ 35 →
  ∀ t, t ∈ extract_tags uni_word uni_lower (t1 ++ c :: t2)
       ↔ t ∈ extract_tags uni_word uni_lower t1
         ∨ t ∈ extract_tags uni_word uni_lower t2.
Proof.
  intros Hw Hc t. rewrite !extract_tags_elements, !elem_of_elements.
  unfold findall. rewrite scan_separated by done.
  rewrite fmap_app. set_solver.
Qed.

Lemma extract_tags_of_two_parts_witness :
  codes "tech" ∈ extract_tags Scenario.no_word Scenario.no_lower
                   (codes "Hello #Tech" ++ 32 :: codes "and #tech!")
  ↔ codes "tech" ∈ extract_tags Scenario.no_word Scenario.no_lower (codes "Hello #Tech")
    ∨ codes "tech" ∈ extract_tags Scenario.no_word Scenario.no_lower (codes "and #tech!").
Proof.
  apply (extract_tags_of_two_parts Scenario.no_word Scenario.no_lower); [reflexivity|done].
Defined.

(** On an ASCII text the extraction does not depend on the case of the
    letters: the text and its lower-cased form have the same tags, and every
    tag is a non-empty word of [a-z0-9_] that lower-casing leaves as it is. *)
Theorem extract_tags_ignores_case (uni_word : N → bool)
    (uni_lower : str → nat → list N) (text : str) :
  is_ascii text →
  extract_tags uni_word uni_lower (lower uni_lower text)
  = extract_tags uni_word uni_lower text
  ∧ ∀ t, t ∈ extract_tags uni_word uni_lower text →
      t ≠ [] ∧ lower uni_lower t = t
      ∧ Forall (λ c, ascii_word c = true ∧ ¬ (65 ≤ c ≤ 90)) t.
Proof.
  intros Ht.
  assert (Hlow : ∀ w, hashtag uni_word text w →
            lower uni_lower w = ascii_lower <$> w).
  { intros w Hw. apply lower_ascii. by eapply hashtag_ascii. }
  split.
  - rewrite !extract_tags_elements. f_equal. f_equal.
    rewrite (lower_ascii _ _ Ht). unfold findall.
    change (scan uni_word None (ascii_lower <$> text))
      with (scan uni_word (fmap (M:=list) ascii_lower <$> None) (ascii_lower <$> text)).
    rewrite (scan_lower uni_word text None Ht).
    rewrite <- list_fmap_compose. apply list_fmap_ext.
    intros i w Hw. simpl.
    assert (Hh : hashtag uni_word text w).
    { exact (proj1 (elem_of_findall uni_word uni_lower text w)
                    (list_elem_of_lookup_2 _ _ _ Hw)). }
    rewrite (Hlow w Hh).
    rewrite lower_ascii by (apply is_ascii_lower; by eapply hashtag_ascii).
    rewrite <- list_fmap_compose. apply list_fmap_ext.
    intros ? c _. simpl. apply ascii_lower_idemp.
  - intros t. rewrite extract_tags_elements, elem_of_elements, elem_of_list_to_set,
      list_elem_of_fmap.
    intros (w & -> & Hw). apply (elem_of_findall uni_word uni_lower) in Hw.
    assert (Ha := hashtag_ascii _ _ _ Ht Hw).
    destruct Hw as (Hne & Hword & _).
    rewrite (lower_ascii _ w Ha). split_and!.
    + by destruct w.
    + rewrite lower_ascii by (by apply is_ascii_lower).
      rewrite <- list_fmap_compose. apply list_fmap_ext.
      intros ? c _. simpl. apply ascii_lower_idemp.
    + apply Forall_fmap. apply Forall_forall. intros c Hc. simpl.
      assert (Hc128 : c < 128) by (by apply (proj1 (Forall_forall _ _) Ha c)).
      assert (Hcw := proj1 (Forall_forall _ _) Hword c Hc). simpl in Hcw.
      unfold word_char in Hcw. rewrite (proj2 (N.ltb_lt _ _) Hc128) in Hcw.
      split; [by rewrite ascii_lower_word|].
      destruct (ascii_lower_spec c) as [[? ->]|[? ->]]; lia.
Qed.

Lemma extract_tags_ignores_case_witness :
  extract_tags Scenario.no_word Scenario.no_lower
    (lower Scenario.no_lower (codes "Hello #Tech and #tech!"))
  = extract_tags Scenario.no_word Scenario.no_lower (codes "Hello #Tech and #tech!").
Proof.
  refine (proj1 (extract_tags_ignores_case Scenario.no_word Scenario.no_lower
                   (codes "Hello #Tech and #tech!") _)).
  unfold is_ascii. vm_compute. repeat constructor.
Defined.

End ParserMore.

(** * Further properties of the news feeder *)

Module FeederMoreFacts.

Import Parser Feeder FeederMore FeederFacts.

#[local] Set Warnings "-clear-no-such-hyp".

(** ** The store *)

Lemma insert_row_news m c d tg tx s :
  news (snd (insert_row m c d tg tx s))
  = news s ++ (if exists_row m c s then []
               else [{| id := next_id s; msg_id := m; channel := c; date := d;
                        tags := tg; text := tx |}]).
Proof.
  unfold insert_row. destruct (exists_row m c s); simpl; [by rewrite app_nil_r|done].
Qed.

Lemma exists_row_app m c s s' l :
  news s' = news s ++ l → exists_row m c s = true → exists_row m c s' = true.
Proof.
  unfold exists_row. intros ->. rewrite existsb_app. by intros ->.
Qed.

Lemma other_writers_news l : ∀ s, ∃ more, news (snd (other_writers l s)) = news s ++ more.
Proof.
  induction l as [|n l IH]; intros s; simpl; [exists []; by rewrite app_nil_r|].
  unfold mbind, M_bind. rewrite other_writer_eq.
  destruct (IH (snd (insert_row (msg_id n) (channel n) (date n) (tags n) (text n) s)))
    as [more Hm].
  rewrite Hm, insert_row_news, <- app_assoc. by eexists.
Qed.

Lemma save_news_news env m c d tg tx s :
  ∃ more, news (snd (save_news env m c d tg tx s)) = news s ++ more.
Proof.
  rewrite save_news_eq.
  assert (Hid : ∃ more, news s = news s ++ more) by (exists []; by rewrite app_nil_r).
  destruct (exists_fault env); [done|].
  destruct (exists_row m c s); [done|]. cbv zeta.
  destruct (other_writers_news (interleaved env) s) as [more Hm].
  assert (H1 : ∃ more, news (snd (other_writers (interleaved env) s)) = news s ++ more)
    by eauto.
  destruct (commit_fault env) as [e|]; [by destruct e|].
  destruct (exists_row m c _); [done|]. cbn [snd].
  rewrite insert_row_news, Hm, <- app_assoc. by eexists.
Qed.

Lemma insert_row_unique m c d tg tx s :
  unique_keys s → unique_keys (snd (insert_row m c d tg tx s)).
Proof.
  intros Hu m0 c0. rewrite count_rows_insert. specialize (Hu m0 c0).
  destruct (exists_row m c s) eqn:E; [done|].
  case_bool_decide as Hk; [|lia].
  destruct Hk as [-> ->]. apply exists_row_count in E. lia.
Qed.

Lemma other_writers_unique l : ∀ s,
  unique_keys s → unique_keys (snd (other_writers l s)).
Proof.
  induction l as [|n l IH]; intros s Hu; simpl; [done|].
  unfold mbind, M_bind. rewrite other_writer_eq. apply IH.
  by apply insert_row_unique.
Qed.

Lemma save_news_unique env m c d tg tx s :
  unique_keys s → unique_keys (snd (save_news env m c d tg tx s)).
Proof.
  intros Hu. rewrite save_news_eq.
  destruct (exists_fault env); [done|].
  destruct (exists_row m c s); [done|]. cbv zeta.
  assert (H1 := other_writers_unique (interleaved env) s Hu).
  destruct (commit_fault env) as [e|]; [by destruct e|].
  destruct (exists_row m c _); [done|]. cbn [snd].
  by apply insert_row_unique.
Qed.

Lemma update_poll_state_unique fault c t s :
  unique_keys s → unique_keys (snd (update_poll_state fault c t s)).
Proof.
  intros Hu m0 c0. unfold count_rows. rewrite update_poll_state_news. apply Hu.
Qed.

Section WithUnicode.

Variable uni_word : N → bool.
Variable uni_lower : str → nat → list N.

(** A property of the store that every save keeps is kept by the loop. *)
Lemma save_loop_keeps (P : store → Prop) env channel_name messages :
  (∀ senv m d tg tx s, P s → P (snd (save_news senv m channel_name d tg tx s))) →
  ∀ i counts s, P s →
    P (snd (save_loop uni_word uni_lower env channel_name messages i counts s)).
Proof.
  intros Hsave. induction messages as [|msg rest IH]; intros i counts s Hs; simpl; [done|].
  destruct (m_text msg) as [[|ch txt]|]; try by apply IH.
  unfold mbind, M_bind.
  specialize (Hsave (env_save env i) (m_id msg) (with_utc (m_date msg))
                (extract_tags uni_word uni_lower (ch :: txt)) (ch :: txt) s Hs).
  destruct (save_news _ _ _ _ _ _ s) as [[saved|e] s1]; simpl in *; [|done].
  by apply IH.
Qed.

(** The store after [poll_channel]: untouched, or the store after the loop,
    with or without the cursor update. *)
Lemma poll_channel_store env channel_name s :
  let s' := snd (poll_channel uni_word uni_lower env channel_name s) in
  s' = s
  ∨ ∃ messages s1,
      env_get_entity env = None ∧ env_get_messages env = Ok messages
      ∧ s1 = snd (save_loop uni_word uni_lower env channel_name messages 0%nat (0, 0) s)
      ∧ (s' = s1
         ∨ s' = snd (update_poll_state (env_poll_fault env) channel_name
                       (env_utcnow env) s1)).
Proof.
  intros s'. subst s'.
  destruct (env_get_entity env) as [e|] eqn:He.
  { left. unfold poll_channel, try_except, mbind, M_bind, raise, mret, M_ret.
    rewrite He. by destruct e. }
  destruct (env_get_messages env) as [messages|e] eqn:Hm.
  - right. eexists messages, _. split_and!; [done|done|reflexivity|].
    rewrite (poll_channel_fetched _ _ _ _ _ _ He Hm).
    destruct (save_loop _ _ _ _ _ _ _ s) as [[counts|e] s1]; [by right|by left].
  - left. unfold poll_channel, try_except, mbind, M_bind, raise, lift, mret, M_ret.
    rewrite He, Hm. by destruct e.
Qed.

Lemma poll_channel_keeps (P : store → Prop) env channel_name s :
  (∀ senv m d tg tx s, P s → P (snd (save_news senv m channel_name d tg tx s))) →
  (∀ fault t s, P s → P (snd (update_poll_state fault channel_name t s))) →
  P s → P (snd (poll_channel uni_word uni_lower env channel_name s)).
Proof.
  intros Hsave Hupd Hs.
  destruct (poll_channel_store env channel_name s)
    as [->|(messages & s1 & _ & _ & -> & [->| ->])]; [done| |].
  - by apply save_loop_keeps.
  - apply Hupd. by apply save_loop_keeps.
Qed.

Lemma poll_all_channels_ok envs channels : ∀ i s,
  fst (poll_all_channels uni_word uni_lower envs channels i s) = Ok tt.
Proof.
  induction channels as [|c rest IH]; intros i s; simpl; [done|].
  unfold mbind, M_bind.
  assert (Hok := poll_channel_returns uni_word uni_lower (envs i) c s).
  destruct (poll_channel _ _ _ _ s) as [[[]|e] s1]; [|done]. apply IH.
Qed.

Lemma poll_all_channels_cons envs c rest i s :
  snd (poll_all_channels uni_word uni_lower envs (c :: rest) i s)
  = snd (poll_all_channels uni_word uni_lower envs rest (S i)
           (snd (poll_channel uni_word uni_lower (envs i) c s))).
Proof.
  simpl. unfold mbind, M_bind.
  assert (Hok := poll_channel_returns uni_word uni_lower (envs i) c s).
  by destruct (poll_channel _ _ _ _ s) as [[[]|e] s1].
Qed.

End WithUnicode.

(** The keys stay pairwise distinct.  A store in which no pair
    [(msg_id, channel)] has two rows is such a store after any sequence of
    saves and cursor updates, after [poll_channel] and after
    [poll_all_channels], whatever the other writers insert and whatever
    fails. *)
Theorem polls_keep_keys_unique (uni_word : N → bool) (uni_lower : str → nat → list N)
    (s : store) :
  unique_keys s →
  (∀ ops, unique_keys (run_ops ops s))
  ∧ (∀ env c, unique_keys (snd (poll_channel uni_word uni_lower env c s)))
  ∧ (∀ envs channels i,
       unique_keys (snd (poll_all_channels uni_word uni_lower envs channels i s))).
Proof.
  intros Hu. split_and!.
  - intros ops. revert s Hu. unfold run_ops.
    induction ops as [|o ops IH]; intros s Hu; simpl; [done|].
    apply IH. destruct o; simpl;
      [by apply save_news_unique|by apply update_poll_state_unique].
  - intros env c. apply poll_channel_keeps; [|by intros; apply update_poll_state_unique|done].
    intros. by apply save_news_unique.
  - intros envs channels. revert s Hu.
    induction channels as [|c rest IH]; intros s Hu i; [done|].
    rewrite poll_all_channels_cons. apply IH.
    apply poll_channel_keeps; [|by intros; apply update_poll_state_unique|done].
    intros. by apply save_news_unique.
Qed.

Lemma polls_keep_keys_unique_witness :
  unique_keys (snd (poll_channel Scenario.no_word Scenario.no_lower Scenario.poll_ok
                      "markets" empty_store)).
Proof.
  refine (proj1 (proj2 (polls_keep_keys_unique Scenario.no_word Scenario.no_lower
                          empty_store _)) Scenario.poll_ok "markets").
  intros m c. unfold count_rows. simpl. lia.
Defined.

(** ** One save *)

(** What [save_news] stores is what it was given.  When it returns [True] the
    pair was new and the table has one more row, the last one, with the message
    id, channel, tags and text of the call and a date that is the point in
    time of the date given, a naive date being read as UTC; and
    [message_exists] finds the pair from then on. *)
Theorem save_news_stores_the_message env m c d tg tx s s' :
  save_news env m c d tg tx s = (Ok true, s') →
  let s1 := snd (other_writers (interleaved env) s) in
  (∃ row, news s' = news s1 ++ [row]
          ∧ msg_id row = m ∧ channel row = c ∧ tags row = tg ∧ text row = tx
          ∧ instant (date row) = instant d)
  ∧ exists_row m c s = false
  ∧ ∀ env', exists_fault env' = None → message_exists env' m c s' = (Ok true, s').
Proof.
  rewrite save_news_eq. intros Hs s1. subst s1.
  destruct (exists_fault env); [done|].
  destruct (exists_row m c s) eqn:E0; [done|]. cbv zeta in Hs.
  destruct (commit_fault env) as [e|]; [by destruct e|].
  destruct (exists_row m c (snd (other_writers (interleaved env) s))) eqn:E1; [done|].
  apply (f_equal snd) in Hs. cbn [snd] in Hs. subst s'.
  assert (Hnews := insert_row_news m c (with_utc d) tg tx
                     (snd (other_writers (interleaved env) s))).
  rewrite E1 in Hnews.
  split_and!; [|done|].
  - eexists. split; [exact Hnews|]. simpl. split_and!; try done.
    unfold instant, with_utc. by destruct (dt_tz d) eqn:Ed; simpl; rewrite ?Ed.
  - intros env' He. unfold message_exists, mbind, M_bind, get, mret, M_ret.
    rewrite He. f_equal. unfold exists_row. rewrite Hnews, existsb_app. simpl.
    unfold same_key. simpl. rewrite bool_decide_true by done.
    by rewrite orb_true_r.
Qed.

Lemma save_news_stores_the_message_witness :
  (∃ row, news Scenario2.one_row = [row]
          ∧ msg_id row = 7 ∧ channel row = "markets" ∧ tags row = [codes "tech"]
          ∧ text row = codes "Hello #Tech and #tech!"
          ∧ instant (date row) = instant Scenario.utcnow)
  ∧ message_exists quiet 7 "markets" Scenario2.one_row = (Ok true, Scenario2.one_row).
Proof.
  destruct (save_news_stores_the_message quiet 7 "markets" Scenario.utcnow
              [codes "tech"] (codes "Hello #Tech and #tech!") empty_store
              Scenario2.one_row) as (Hnews & _ & Hex).
  - by vm_compute.
  - split; [exact Hnews|]. by apply Hex.
Defined.

Lemma other_writers_insert_key m c l : ∀ s,
  count_rows m c s = 0%nat →
  (∃ n, n ∈ l ∧ msg_id n = m ∧ channel n = c) →
  count_rows m c (snd (other_writers l s)) = 1%nat.
Proof.
  induction l as [|n l IH]; intros s H0 (x & Hx & Hm & Hc);
    [by apply elem_of_nil in Hx|].
  simpl. unfold mbind, M_bind. rewrite other_writer_eq.
  set (s1 := snd (insert_row (msg_id n) (channel n) (date n) (tags n) (text n) s)).
  assert (H1 : count_rows m c s1
               = (if bool_decide (msg_id n = m ∧ channel n = c) then 1 else 0)%nat).
  { unfold s1. rewrite count_rows_insert, H0.
    destruct (exists_row (msg_id n) (channel n) s) eqn:E; [|done].
    case_bool_decide as Hk; [|done]. destruct Hk as [Hk1 Hk2].
    rewrite Hk1, Hk2 in E. apply exists_row_count in H0. congruence. }
  case_bool_decide as Hk.
  - by apply other_writers_keep_one.
  - apply IH; [done|]. apply elem_of_cons in Hx as [->|Hx]; [by destruct Hk|eauto].
Qed.

(** The race for a pair is lost quietly.  When another writer commits a row
    with the pair between the existence check and the insert, [save_news]
    returns [False] and raises nothing; the table holds one row with the pair
    and nothing of this call. *)
Theorem save_news_loses_the_race env m c d tg tx s :
  exists_fault env = None → commit_fault env = None →
  exists_row m c s = false →
  (∃ n, n ∈ interleaved env ∧ msg_id n = m ∧ channel n = c) →
  save_news env m c d tg tx s = (Ok false, snd (other_writers (interleaved env) s))
  ∧ count_rows m c (snd (other_writers (interleaved env) s)) = 1%nat.
Proof.
  intros He Hc H0 Hn.
  assert (H1 := other_writers_insert_key m c _ s (proj1 (exists_row_count m c s) H0) Hn).
  split; [|done]. rewrite save_news_eq, He, Hc, H0. cbv zeta.
  destruct (exists_row m c (snd (other_writers (interleaved env) s))) eqn:E1; [done|].
  apply exists_row_count in E1. lia.
Qed.

Lemma save_news_loses_the_race_witness :
  save_news Scenario2.racing 7 "markets" Scenario.utcnow [] (codes "second") empty_store
  = (Ok false, snd (other_writers [Scenario2.rival] empty_store))
  ∧ count_rows 7 "markets" (snd (other_writers [Scenario2.rival] empty_store)) = 1%nat.
Proof.
  apply (save_news_loses_the_race Scenario2.racing 7 "markets" Scenario.utcnow []
           (codes "second") empty_store); [done|done|done|].
  exists Scenario2.rival. split_and!; [by left|done|done].
Defined.

(** A commit that fails for another reason than the constraint loses nothing:
    [save_news] raises that exception and leaves the table as it found it, and
    the same call against a store that answers saves the message. *)
Theorem save_news_failed_commit_can_be_retried env m c d tg tx s e :
  exists_fault env = None → interleaved env = [] →
  commit_fault env = Some e → e ≠ IntegrityError →
  exists_row m c s = false →
  save_news env m c d tg tx s = (Raise e, s)
  ∧ fst (save_news quiet m c d tg tx s) = Ok true
  ∧ count_rows m c (snd (save_news quiet m c d tg tx s)) = 1%nat.
Proof.
  intros He Hi Hc Hne H0. rewrite !save_news_eq, He, Hi, Hc, H0. simpl.
  rewrite H0. split_and!; [by destruct e|done|]. cbn [snd].
  rewrite count_rows_insert, H0. apply exists_row_count in H0. rewrite H0.
  by rewrite bool_decide_true.
Qed.

Lemma save_news_failed_commit_can_be_retried_witness :
  save_news Scenario2.commit_down 7 "markets" Scenario.utcnow [] (codes "x") empty_store
  = (Raise (OtherError "OperationalError"), empty_store)
  ∧ fst (save_news quiet 7 "markets" Scenario.utcnow [] (codes "x") empty_store) = Ok true
  ∧ count_rows 7 "markets"
      (snd (save_news quiet 7 "markets" Scenario.utcnow [] (codes "x") empty_store))
    = 1%nat.
Proof.
  by apply (save_news_failed_commit_can_be_retried Scenario2.commit_down 7 "markets"
              Scenario.utcnow [] (codes "x") empty_store (OtherError "OperationalError")).
Defined.

(** ** The cursor *)

(** The cursor that [update_poll_state] writes is the one
    [get_last_poll_state] reads, as a point in time: for a time whose point in
    time is a [datetime] of UTC, the value read back is that point in time as
    a UTC value, the value itself when it was given in UTC or naive, as
    [poll_channel] gives it; a second update overwrites the first; the cursors
    of the other channels read as before; and an update that fails changes
    nothing. *)
Theorem poll_state_round_trip c c' t t' s e :
  0 ≤ instant t ≤ max_us → 0 ≤ instant t' ≤ max_us →
  let s1 := snd (update_poll_state None c t s) in
  let s2 := snd (update_poll_state None c t' s1) in
  get_last_poll_state None c s1 = (Ok (Some (as_stored t)), s1)
  ∧ get_last_poll_state None c s2 = (Ok (Some (as_stored t')), s2)
  ∧ instant (as_stored t) = instant t
  ∧ (dt_tz t = None ∨ dt_tz t = Some 0 → as_stored t = with_utc t)
  ∧ (c' ≠ c → fst (get_last_poll_state None c' s1) = fst (get_last_poll_state None c' s))
  ∧ update_poll_state (Some e) c t s = (Raise e, s).
Proof.
  intros _ _ s1 s2. unfold get_last_poll_state, mbind, M_bind, get, mret, M_ret.
  subst s1 s2.
  assert (Hsame : ∀ d, as_stored (with_utc d) = as_stored d).
  { intros d. unfold as_stored, instant, with_utc.
    by destruct (dt_tz d) eqn:Ed; simpl; rewrite ?Ed. }
  split_and!.
  - by rewrite update_poll_state_lookup; simpl; rewrite Hsame.
  - by rewrite update_poll_state_lookup; simpl; rewrite Hsame.
  - unfold as_stored, instant. simpl. lia.
  - unfold as_stored, instant, with_utc, replace_tzinfo_utc.
    destruct t as [us tz]. simpl. intros [->| ->]; simpl; f_equal; lia.
  - intros Hne. cbn [fst]. by rewrite update_poll_state_other.
  - done.
Qed.

Lemma poll_state_round_trip_witness :
  let half_past_one := {| dt_us := Scenario.ten + 12600000000;
                          dt_tz := Some 10800000000 |} in
  let s1 := snd (update_poll_state None "markets" half_past_one empty_store) in
  get_last_poll_state None "markets" s1
  = (Ok (Some {| dt_us := Scenario.ten + 1800000000; dt_tz := Some 0 |}), s1).
Proof.
  intros half_past_one s1.
  destruct (poll_state_round_trip "markets" "other" half_past_one Scenario.utcnow
              empty_store RuntimeError) as (Hread & _).
  - by vm_compute.
  - by vm_compute.
  - exact Hread.
Defined.

(** ** One channel *)

Lemma exists_row_news m c s s' :
  news s = news s' → exists_row m c s = exists_row m c s'.
Proof. unfold exists_row. by intros ->. Qed.

Lemma save_news_keeps_row m c env m' c' d tg tx s :
  exists_row m c s = true → exists_row m c (snd (save_news env m' c' d tg tx s)) = true.
Proof.
  intros H. destruct (save_news_news env m' c' d tg tx s) as [more Hm].
  by eapply exists_row_app.
Qed.

Lemma save_news_stored env m c d tg tx s :
  exists_fault env = None → commit_fault env = None →
  is_ok (fst (save_news env m c d tg tx s)) = true
  ∧ exists_row m c (snd (save_news env m c d tg tx s)) = true.
Proof.
  intros He Hc. rewrite save_news_eq, He, Hc.
  destruct (exists_row m c s) eqn:E0; [done|]. cbv zeta.
  destruct (exists_row m c (snd (other_writers (interleaved env) s))) eqn:E1; [done|].
  split; [done|]. cbn [snd]. unfold exists_row.
  rewrite insert_row_news. fold (exists_row m c (snd (other_writers (interleaved env) s))).
  rewrite E1, existsb_app. simpl. unfold same_key. simpl.
  rewrite bool_decide_true by done. by rewrite orb_true_r.
Qed.

Lemma save_news_length env m c d tg tx s b s' :
  interleaved env = [] →
  save_news env m c d tg tx s = (Ok b, s') →
  length (news s') = (length (news s) + if b then 1 else 0)%nat.
Proof.
  intros Hi. rewrite save_news_eq, Hi. simpl.
  destruct (exists_fault env); [done|].
  destruct (exists_row m c s) eqn:E0; [intros [= <- <-]; lia|].
  destruct (commit_fault env) as [e|]; [destruct e; try done; intros [= <- <-]; lia|].
  intros [= <- <-]. rewrite insert_row_news, E0, length_app. simpl. lia.
Qed.

Section WithUnicode.

Variable uni_word : N → bool.
Variable uni_lower : str → nat → list N.

Lemma save_loop_counts env channel_name messages : ∀ i counts s saved skipped s',
  save_loop uni_word uni_lower env channel_name messages i counts s
  = (Ok (saved, skipped), s') →
  saved + skipped = counts.1 + counts.2 + Z.of_nat (length (with_text messages))
  ∧ counts.1 ≤ saved ∧ counts.2 ≤ skipped
  ∧ ((∀ j, interleaved (env_save env j) = []) →
     Z.of_nat (length (news s')) = Z.of_nat (length (news s)) + (saved - counts.1)).
Proof.
  induction messages as [|msg rest IH]; intros i counts s saved skipped s'.
  - simpl. unfold mret, M_ret. intros [= -> <-]. simpl. split_and!; try lia.
  - simpl. unfold with_text in *. simpl.
    destruct (m_text msg) as [[|ch txt]|]; try apply IH.
    unfold mbind, M_bind.
    destruct (save_news (env_save env i) _ _ _ _ _ s) as [[b|e] s1] eqn:Es; [|done].
    intros Hloop. destruct (IH _ _ _ _ _ _ Hloop) as (Hsum & H1 & H2 & Hlen).
    simpl length.
    destruct b; simpl in *; (split_and!; [lia|lia|lia|]);
      intros Hq; specialize (Hlen Hq);
      rewrite (save_news_length _ _ _ _ _ _ _ _ _ (Hq i) Es) in Hlen; lia.
Qed.

Lemma save_loop_all_stored env channel_name messages : ∀ i counts s,
  (∀ j, exists_fault (env_save env j) = None ∧ commit_fault (env_save env j) = None) →
  let r := save_loop uni_word uni_lower env channel_name messages i counts s in
  is_ok (fst r) = true
  ∧ ∀ msg, msg ∈ with_text messages → exists_row (m_id msg) channel_name (snd r) = true.
Proof.
  induction messages as [|msg rest IH]; intros i counts s Hq; simpl.
  - split; [done|]. by intros ? ?%elem_of_nil.
  - unfold with_text in *. simpl.
    destruct (m_text msg) as [[|ch txt]|] eqn:Et; try by apply IH.
    unfold mbind, M_bind.
    destruct (save_news_stored (env_save env i) (m_id msg) channel_name
                (with_utc (m_date msg)) (extract_tags uni_word uni_lower (ch :: txt))
                (ch :: txt) s (proj1 (Hq i)) (proj2 (Hq i))) as [Hok Hex].
    destruct (save_news _ _ _ _ _ _ s) as [[b|e] s1]; [|done]. simpl in Hex.
    destruct (IH (S i) (if b then (counts.1 + 1, counts.2) else (counts.1, counts.2 + 1))
                s1 Hq) as [Hok' Hall].
    split; [done|]. intros x [->|Hx]%elem_of_cons; [|by apply Hall].
    apply (save_loop_keeps uni_word uni_lower
             (λ s, exists_row (m_id msg) channel_name s = true)); [|done].
    intros. by apply save_news_keeps_row.
Qed.

Lemma save_loop_all_known env channel_name messages : ∀ i counts s,
  (∀ j, exists_fault (env_save env j) = None) →
  (∀ msg, msg ∈ with_text messages → exists_row (m_id msg) channel_name s = true) →
  snd (save_loop uni_word uni_lower env channel_name messages i counts s) = s
  ∧ is_ok (fst (save_loop uni_word uni_lower env channel_name messages i counts s)) = true.
Proof.
  induction messages as [|msg rest IH]; intros i counts s Hq Hall; simpl; [done|].
  unfold with_text in *. simpl in Hall.
  destruct (m_text msg) as [[|ch txt]|] eqn:Et; try by apply IH.
  unfold mbind, M_bind. rewrite save_news_eq, (Hq i).
  rewrite Hall by (by left). apply IH; [done|].
  intros x Hx. apply Hall. by right.
Qed.

Lemma poll_channel_news env channel_name s messages :
  env_get_entity env = None → env_get_messages env = Ok messages →
  news (snd (poll_channel uni_word uni_lower env channel_name s))
  = news (snd (save_loop uni_word uni_lower env channel_name messages 0%nat (0, 0) s)).
Proof.
  intros He Hm. rewrite (poll_channel_fetched _ _ _ _ _ _ He Hm).
  destruct (save_loop _ _ _ _ _ _ _ s) as [[counts|e] s1]; [|done].
  cbn [snd]. apply update_poll_state_news.
Qed.

Lemma poll_channel_idle env channel_name s :
  env_get_entity env ≠ None ∨ is_ok (env_get_messages env) = false →
  poll_channel uni_word uni_lower env channel_name s = (Ok tt, s).
Proof.
  intros H. unfold poll_channel, try_except, mbind, M_bind, raise, lift, mret, M_ret.
  destruct (env_get_entity env) as [e|] eqn:He; [by destruct e|].
  destruct H as [?|H]; [done|].
  destruct (env_get_messages env) as [messages|e]; [done|by destruct e].
Qed.

End WithUnicode.

(** A channel that gives no messages leaves the store alone.  When the channel
    cannot be resolved (not found, private, any other failure) or its
    messages cannot be fetched (rate limit included), [poll_channel] returns
    normally and neither a news row nor the cursor of the channel is written. *)
Theorem poll_channel_without_messages (uni_word : N → bool)
    (uni_lower : str → nat → list N) env channel_name s :
  env_get_entity env ≠ None ∨ is_ok (env_get_messages env) = false →
  poll_channel uni_word uni_lower env channel_name s = (Ok tt, s).
Proof. apply poll_channel_idle. Qed.

Lemma poll_channel_without_messages_witness :
  poll_channel Scenario.no_word Scenario.no_lower Scenario2.poll_private "markets"
    Scenario2.one_row
  = (Ok tt, Scenario2.one_row).
Proof.
  apply (poll_channel_without_messages Scenario.no_word Scenario.no_lower
           Scenario2.poll_private "markets" Scenario2.one_row).
  by left.
Defined.

(** The counters of the loop count the messages and the rows.  When the loop
    over the fetched messages returns, the saved and the skipped messages
    together are the messages that have a text, and, no other writer being at
    work, the table has grown by exactly the number of saved messages. *)
Theorem save_loop_counts_messages_and_rows (uni_word : N → bool)
    (uni_lower : str → nat → list N) env channel_name messages s saved skipped s' :
  save_loop uni_word uni_lower env channel_name messages 0%nat (0, 0) s
  = (Ok (saved, skipped), s') →
  saved + skipped = Z.of_nat (length (with_text messages))
  ∧ 0 ≤ saved ∧ 0 ≤ skipped
  ∧ ((∀ j, interleaved (env_save env j) = []) →
     Z.of_nat (length (news s')) = Z.of_nat (length (news s)) + saved).
Proof.
  intros H. destruct (save_loop_counts _ _ _ _ _ _ _ _ _ _ _ H) as (Hs & H1 & H2 & Hl).
  simpl in *. split_and!; [lia|lia|lia|]. intros Hq. specialize (Hl Hq). lia.
Qed.

Lemma save_loop_counts_messages_and_rows_witness :
  let r := save_loop Scenario.no_word Scenario.no_lower Scenario.poll_ok "markets"
             [Scenario.hello; Scenario.hello] 0%nat (0, 0) empty_store in
  fst r = Ok (1, 1) ∧ 1 + 1 = Z.of_nat (length (with_text [Scenario.hello; Scenario.hello])).
Proof.
  intros r. split; [by vm_compute|].
  refine (proj1 (save_loop_counts_messages_and_rows Scenario.no_word Scenario.no_lower
                   Scenario.poll_ok "markets" [Scenario.hello; Scenario.hello]
                   empty_store 1 1 (snd r) _)).
  by vm_compute.
Defined.

(** Polling again stores nothing again.  After a poll of a channel in which
    the store answered every save, a further poll that fetches the same
    messages adds no row to the table, whatever the other writers do
    meanwhile, as long as the existence queries are answered. *)
Theorem repolling_adds_nothing (uni_word : N → bool) (uni_lower : str → nat → list N)
    env1 env2 channel_name s messages :
  env_get_entity env1 = None → env_get_messages env1 = Ok messages →
  (∀ j, exists_fault (env_save env1 j) = None ∧ commit_fault (env_save env1 j) = None) →
  env_get_messages env2 = Ok messages →
  (∀ j, exists_fault (env_save env2 j) = None) →
  let s1 := snd (poll_channel uni_word uni_lower env1 channel_name s) in
  news (snd (poll_channel uni_word uni_lower env2 channel_name s1)) = news s1.
Proof.
  intros He1 Hm1 Hq1 Hm2 Hq2 s1.
  destruct (env_get_entity env2) as [e|] eqn:He2.
  { rewrite poll_channel_idle; [done|]. left. by rewrite He2. }
  rewrite (poll_channel_news _ _ _ _ _ _ He2 Hm2).
  destruct (save_loop_all_stored uni_word uni_lower env1 channel_name messages
              0%nat (0, 0) s Hq1) as [_ Hall].
  assert (Hknown : ∀ msg, msg ∈ with_text messages →
            exists_row (m_id msg) channel_name s1 = true).
  { intros msg Hmsg. rewrite <- (Hall msg Hmsg). apply exists_row_news.
    unfold s1. by apply poll_channel_news. }
  by rewrite (proj1 (save_loop_all_known uni_word uni_lower env2 channel_name messages
                       0%nat (0, 0) s1 Hq2 Hknown)).
Qed.

Lemma repolling_adds_nothing_witness :
  let s1 := snd (poll_channel Scenario.no_word Scenario.no_lower Scenario.poll_ok
                   "markets" empty_store) in
  news (snd (poll_channel Scenario.no_word Scenario.no_lower Scenario.poll_ok
               "markets" s1)) = news s1.
Proof.
  by apply (repolling_adds_nothing Scenario.no_word Scenario.no_lower Scenario.poll_ok
              Scenario.poll_ok "markets" empty_store [Scenario.hello]).
Defined.

(** ** All channels *)

Section AllChannels.

Variable uni_word : N → bool.
Variable uni_lower : str → nat → list N.

Lemma update_poll_state_any_other fault c c' t s :
  c' ≠ c →
  polling_state (snd (update_poll_state fault c t s)) !! c' = polling_state s !! c'.
Proof.
  intros Hne. destruct fault as [e|]; [done|]. by apply update_poll_state_other.
Qed.

Lemma poll_channel_other_cursor env c c' s :
  c' ≠ c →
  polling_state (snd (poll_channel uni_word uni_lower env c s)) !! c'
  = polling_state s !! c'.
Proof.
  intros Hne.
  apply (poll_channel_keeps uni_word uni_lower
           (λ s', polling_state s' !! c' = polling_state s !! c')); [| |done].
  - intros senv m d tg tx s0 H0. by rewrite save_news_polling.
  - intros fault t s0 H0. by rewrite update_poll_state_any_other.
Qed.

Lemma poll_all_channels_other_cursor envs channels c' : ∀ i s,
  c' ∉ channels →
  polling_state (snd (poll_all_channels uni_word uni_lower envs channels i s)) !! c'
  = polling_state s !! c'.
Proof.
  induction channels as [|c rest IH]; intros i s Hnot; [done|].
  apply not_elem_of_cons in Hnot as [Hne Hrest].
  rewrite poll_all_channels_cons, IH by done.
  by apply poll_channel_other_cursor.
Qed.

Lemma poll_channel_healthy env c s :
  healthy env →
  polling_state (snd (poll_channel uni_word uni_lower env c s)) !! c
  = Some (with_utc (env_utcnow env)).
Proof.
  intros (He & Hm & Hq & Hp).
  destruct (env_get_messages env) as [messages|e] eqn:Em; [|done].
  rewrite (poll_channel_fetched _ _ _ _ _ _ He Em).
  assert (Hok := save_loop_returns uni_word uni_lower env c messages 0%nat (0, 0) s Hq).
  destruct (save_loop _ _ _ _ _ _ _ s) as [[counts|e] s1]; [|done].
  cbn [snd]. rewrite Hp. apply update_poll_state_lookup.
Qed.

Lemma poll_all_channels_cursor envs channels : ∀ k c i s,
  NoDup channels → channels !! k = Some c → healthy (envs (i + k)%nat) →
  polling_state (snd (poll_all_channels uni_word uni_lower envs channels i s)) !! c
  = Some (with_utc (env_utcnow (envs (i + k)%nat))).
Proof.
  induction channels as [|c0 rest IH]; intros k c i s Hnd Hk Hh; [done|].
  apply NoDup_cons in Hnd as [Hnot Hnd]. rewrite poll_all_channels_cons.
  destruct k as [|k]; simpl in Hk.
  - injection Hk as ->. rewrite poll_all_channels_other_cursor by done.
    rewrite Nat.add_0_r in Hh. rewrite Nat.add_0_r. by apply poll_channel_healthy.
  - rewrite <- Nat.add_succ_comm in *. by apply IH.
Qed.

End AllChannels.

(** The channels do not disturb one another.  [poll_all_channels] never
    raises; a channel of a list without repetitions whose own poll goes through
    has its cursor at the time of that poll afterwards, whatever happens to the
    other channels; and the cursor of a channel that is not in the list is as
    before. *)
Theorem poll_all_channels_isolates (uni_word : N → bool)
    (uni_lower : str → nat → list N) envs channels s :
  NoDup channels →
  let r := poll_all_channels uni_word uni_lower envs channels 0%nat s in
  fst r = Ok tt
  ∧ (∀ k c, channels !! k = Some c → healthy (envs k) →
       polling_state (snd r) !! c = Some (with_utc (env_utcnow (envs k))))
  ∧ (∀ c, c ∉ channels → polling_state (snd r) !! c = polling_state s !! c).
Proof.
  intros Hnd r. subst r. split_and!.
  - apply poll_all_channels_ok.
  - intros k c Hk Hh.
    by apply (poll_all_channels_cursor uni_word uni_lower envs channels k c 0%nat s).
  - intros c Hc. by apply poll_all_channels_other_cursor.
Qed.

Lemma poll_all_channels_isolates_witness :
  let envs := λ i : nat, match i with
                         | O => Scenario2.poll_private
                         | _ => Scenario.poll_ok
                         end in
  let r := poll_all_channels Scenario.no_word Scenario.no_lower envs
             ["closed"; "markets"] 0%nat empty_store in
  polling_state (snd r) !! "markets" = Some Scenario.utcnow.
Proof.
  intros envs r.
  refine (proj1 (proj2 (poll_all_channels_isolates Scenario.no_word Scenario.no_lower
            envs ["closed"; "markets"] empty_store _)) 1%nat "markets" _ _).
  - repeat constructor; set_solver.
  - reflexivity.
  - split_and!; [done|done| |done]. intros i. by split; [|left].
Defined.

(** Every start of the feeder begins with empty tables.  [main] creates the
    tables with [drop_existing=True]: once the connection and the creation
    have succeeded, what the store holds afterwards is what the polls of this
    run put into empty tables, whatever it held before; and when the
    connection fails, [main] raises and the store is as it was. *)
Theorem main_starts_from_empty_tables (uni_word : N → bool)
    (uni_lower : str → nat → list N) senv envs channels s :
  (∀ e, connect_fault senv = Some e →
        main uni_word uni_lower senv envs channels s = (Raise e, s))
  ∧ (connect_fault senv = None → create_fault senv = None →
     snd (main uni_word uni_lower senv envs channels s)
     = match start_fault senv with
       | Some _ => empty_store
       | None => snd (poll_all_channels uni_word uni_lower envs channels 0%nat
                        empty_store)
       end).
Proof.
  unfold main, create_tables, try_except, mbind, M_bind, raise, modify, mret, M_ret.
  split.
  - by intros e ->.
  - intros -> ->. destruct (start_fault senv) as [e|]; [done|].
    by destruct (poll_all_channels _ _ _ _ _ empty_store) as [[[]|e] s1].
Qed.

End FeederMoreFacts.
